(** * Slack knowledge pipeline: shallow embedding and verified properties

    The development follows the four scripts of the repository:
    - [DataProcessor.py]  : markup cleaning, thread flattening, index chunking;
    - [GraphBuilder.py]   : the checkpointed batch loop that feeds the
                            graph-extraction backend;
    - [RagQuery.py]       : cross-encoder reranking and prompt construction;
    - [VectorStoreSaver.py]: reading the chunk files and batching them for
                            the embedding service.

    Python [str] values are modelled as [string]; a Python [dict] keyed by
    message id is a [gmap string _]; lists are lists.  External services
    (tokenizer, graph transformer, graph database, cross-encoder, chat model)
    are section variables: every theorem holds for any behaviour of theirs. *)

From Stdlib Require Import String Ascii List Arith ZArith Lia Permutation Sorted.
From stdpp Require Import base tactics option list gmap strings pretty.

Local Open Scope string_scope.
Local Open Scope list_scope.

(** ** Python string primitives *)

Module PyStr.

(** The line feed, and the paragraph delimiter made of two of them. *)
Definition newline : string := String "010" EmptyString.
Definition blank_line : string := String "010" (String "010" EmptyString).

(** A Python string is a sequence of code points; here it is the [string] of
    the bytes of its UTF-8 encoding.  The operations of the scripts look for
    ASCII characters and ASCII substrings only, which UTF-8 keeps apart from
    the bytes of every other character, and for white space. *)

(** The white-space characters of the ASCII range, for [str.isspace]: tab,
    line feed, vertical tab, form feed, carriage return, the four separators
    0x1c-0x1f and the space. *)
Definition ascii_space (c : ascii) : bool :=
  match c with
  | "009" | "010" | "011" | "012" | "013"
  | "028" | "029" | "030" | "031" | " " => true
  | _ => false
  end%char.

Definition utf8 (bytes : list nat) : string :=
  string_of_list_ascii (map ascii_of_nat bytes).

(** The other white-space characters of [str.isspace], by their encodings:
    U+0085, U+00A0, U+1680, U+2000 to U+200A, U+2028, U+2029, U+202F, U+205F
    and U+3000. *)
Definition wide_spaces : list string :=
  map utf8
      [ [194; 133]; [194; 160]; [225; 154; 128];
        [226; 128; 128]; [226; 128; 129]; [226; 128; 130]; [226; 128; 131];
        [226; 128; 132]; [226; 128; 133]; [226; 128; 134]; [226; 128; 135];
        [226; 128; 136]; [226; 128; 137]; [226; 128; 138];
        [226; 128; 168]; [226; 128; 169]; [226; 128; 175];
        [226; 129; 159]; [227; 128; 128] ].

(** The text starts with a white-space character; [wide] lists the
    encodings of those of more than one byte. *)
Definition starts_with_space (wide : list string) (s : string) : bool :=
  match s with
  | EmptyString => false
  | String c _ => ascii_space c || existsb (fun w => String.prefix w s) wide
  end.

(** The text without the white-space characters it starts with; [skip]
    counts the bytes of the current character still to be passed over. *)
Fixpoint strip_go (wide : list string) (skip : nat) (s : string) : string :=
  match s with
  | EmptyString => EmptyString
  | String c s' =>
      match skip with
      | S k => strip_go wide k s'
      | O =>
          if ascii_space c then strip_go wide 0 s'
          else
            match List.find (fun w => String.prefix w s) wide with
            | Some w => strip_go wide (String.length w - 1) s'
            | None => s
            end
      end
  end.

(** [s.lstrip()], [s.rstrip()], [s.strip()].  At the end of the text the
    bytes of a character come in reverse order. *)
Definition lstrip (s : string) : string := strip_go wide_spaces 0 s.

Definition rstrip (s : string) : string :=
  String.rev (strip_go (map String.rev wide_spaces) 0 (String.rev s)).

Definition strip (s : string) : string := rstrip (lstrip s).

(** [re.sub("[...]", "", s)] for a character class given as a predicate. *)
Fixpoint remove_chars (cls : ascii → bool) (s : string) : string :=
  match s with
  | EmptyString => EmptyString
  | String c s' =>
      if cls c then remove_chars cls s' else String c (remove_chars cls s')
  end.

(** [s.replace(old, new)] for a non-empty [old]: the text is scanned from
    the left; at a position where [old] starts, [new] is emitted and the
    scan resumes after the occurrence.  [skip] counts the characters of the
    current occurrence still to be passed over. *)
Fixpoint replace_go (old new : string) (skip : nat) (s : string) : string :=
  match s with
  | EmptyString => EmptyString
  | String c s' =>
      match skip with
      | S k => replace_go old new k s'
      | O =>
          if String.prefix old s
          then new +:+ replace_go old new (String.length old - 1) s'
          else String c (replace_go old new 0 s')
      end
  end.

Definition replace (old new s : string) : string := replace_go old new 0 s.

(** [s.split(sep)] for a non-empty [sep]; [cur] holds the piece being
    read, reversed. *)
Fixpoint split_go (sep : string) (skip : nat) (cur : string) (s : string)
  : list string :=
  match s with
  | EmptyString => [String.rev cur]
  | String c s' =>
      match skip with
      | S k => split_go sep k cur s'
      | O =>
          if String.prefix sep s
          then String.rev cur :: split_go sep (String.length sep - 1) EmptyString s'
          else split_go sep 0 (String c cur) s'
      end
  end.

Definition split (sep s : string) : list string := split_go sep 0 EmptyString s.

(** [sep.join(parts)]. *)
Definition join (sep : string) (parts : list string) : string :=
  String.concat sep parts.

(** Truthiness of a string: [if s:]. *)
Definition nonempty (s : string) : bool :=
  match s with EmptyString => false | _ => true end.

End PyStr.

Import PyStr.

(** ** Input records

    One element of the Slack export.  Field access in the scripts always goes
    through [d.get(k) or ""], so a missing or null field and an empty one are
    the same value here; [timestamp] is the field after [str(...)]. *)

Record file := File { summary : string }.

#[warnings="-register-all"]
Inductive message := Message {
  timestamp : string;
  text : string;
  files : list file;
  thread_replies : list message
}.

(** [langchain_core.documents.Document]. *)
Record Document := Doc {
  page_content : string;
  metadata : gmap string string
}.

(** ** DataProcessor.py *)

Module DataProcessor.

(** The character class of [re.sub(r"[*_~]", "", text)]. *)
Definition markup_class (c : ascii) : bool :=
  match c with
  | "*" | "_" | "~" => true
  | _ => false
  end%char.

Definition _clean_slack_markup (text : string) : string :=
  let text := remove_chars markup_class text in
  strip (replace "&amp;" "&" (replace "&gt;" ">" (replace "&lt;" "<" text))).

(** [parts] is the list the function appends to. *)
Definition _merge_message (msg : message) : string :=
  let parts : list string := [] in
  let main_text := text msg in
  let parts :=
    if nonempty main_text then parts ++ [_clean_slack_markup main_text]
    else parts in
  let parts :=
    fold_left
      (fun parts f =>
         if nonempty (summary f)
         then parts ++ ["Attached file summary: " +:+ summary f]
         else parts)
      (files msg) parts in
  join newline parts.

(** The generator, as the list of the pairs it yields. *)
Definition _flatten_messages (messages : list message) : list (string * string) :=
  fold_left
    (fun yielded msg =>
       let msg_id := timestamp msg in
       if negb (nonempty msg_id) then yielded
       else
         let sections :=
           fold_left (fun sections reply => sections ++ [_merge_message reply])
                     (thread_replies msg) [_merge_message msg] in
         yielded ++ [(msg_id, join blank_line (List.filter nonempty sections))])
    messages [].

(** One record of the output file. *)
Record chunk := Chunk { chunk_timestamp : string; chunk_text : string }.

(** [split_text] is the method of the text splitter the function builds with
    [RecursiveCharacterTextSplitter.from_tiktoken_encoder]; the splitter
    belongs to a library outside the repository. *)
Definition _chunk_documents (split_text : string → list string)
    (docs : list (string * string)) : list chunk :=
  fold_left
    (fun chunked '(ts, text) =>
       fold_left
         (fun chunked c => chunked ++ [{| chunk_timestamp := ts; chunk_text := c |}])
         (split_text text) chunked)
    docs [].

(** ** The flattener in the words of the specification *)

Definition attachment_lines (m : message) : list string :=
  map (fun f => "Attached file summary: " +:+ summary f)
      (List.filter (fun f => nonempty (summary f)) (files m)).

(** A section: the normalized body (when the message has a body) followed by
    the attachment lines, one per line. *)
Definition section_of (m : message) : string :=
  join newline
       ((if nonempty (text m) then [_clean_slack_markup (text m)] else [])
          ++ attachment_lines m).

(** The document of a thread: non-empty sections, root first, separated by a
    blank line. *)
Definition document_of (m : message) : string * string :=
  (timestamp m,
   join blank_line
        (List.filter nonempty (section_of m :: map section_of (thread_replies m)))).

Definition flatten_spec (messages : list message) : list (string * string) :=
  map document_of (List.filter (fun m => nonempty (timestamp m)) messages).

End DataProcessor.

(** ** RagQuery.py *)

Module RagQuery.

Section Rerank.

(** Relevance scores and their comparison [x < y].  [sorted] only ever uses
    this comparison. *)
Context {Score : Type}.
Variable score_lt : Score → Score → bool.

(** [ranked[:k]]: a negative bound counts from the end. *)
Definition slice_to {A} (k : Z) (l : list A) : list A :=
  if (0 <=? k)%Z then take (Z.to_nat k) l
  else take (length l - Z.to_nat (- k)) l.

(** [sorted(pairs, key=lambda x: x[1], reverse=True)].  The built-in sort is
    stable, also with [reverse=True]: the result is in descending key order
    and elements with equal keys stay in their input order.  That determines
    the result; it is computed here by insertion from the right, where an
    element moves past strictly greater keys only. *)
Fixpoint insert_desc {A} (x : A * Score) (l : list (A * Score)) : list (A * Score) :=
  match l with
  | [] => [x]
  | y :: l' =>
      if score_lt (snd x) (snd y) then y :: insert_desc x l'
      else x :: y :: l'
  end.

Definition sorted_desc {A} (l : list (A * Score)) : list (A * Score) :=
  foldr insert_desc [] l.

(** [x] does not score below [y]; a list is in descending order when every
    element does not score below any later one. *)
Definition not_below {A} (x y : A * Score) : Prop :=
  score_lt (snd x) (snd y) = false.

Definition descending {A} (l : list (A * Score)) : Prop :=
  StronglySorted not_below l.

(** [x] scores neither below nor above [s]. *)
Definition tied {A} (s : Score) (x : A * Score) : bool :=
  negb (score_lt (snd x) s) && negb (score_lt s (snd x)).

Variable predict : list (string * string) → list Score.

(** [ranked[:k2]] with the scores still attached. *)
Definition rerank_scored (query : string) (docs : list Document) (k2 : Z)
  : list (Document * Score) :=
  let pairs := map (fun d => (query, page_content d)) docs in
  let scores := predict pairs in
  let ranked := sorted_desc (zip docs scores) in
  slice_to k2 ranked.

Definition rerank (query : string) (docs : list Document) (k2 : Z) : list Document :=
  match docs with
  | [] => []
  | _ => map fst (rerank_scored query docs k2)
  end.

End Rerank.

Section Retrieve.

(** [vectordb.similarity_search(query, k=k1)]. *)
Variable similarity_search : string → Z → list Document.

Definition retrieve (query : string) (k1 : Z) : list Document :=
  similarity_search query k1.

End Retrieve.

Definition SYSTEM_PROMPT : string :=
  "You are an AI assistant that answers employee questions using our internal knowledge base."
  +:+ "Our company is a social-casino game studio"
  +:+ "The context contains Slack messages, file excerpts, or summaries retrieved for high relevance to the question"
  +:+ "If the answer is not contained in the context, say you don't know."
  +:+ "Give concrete numbers, dates, names, and policies when available."
  +:+ "Preserve original terminology; add concise explanations only if helpful."
  +:+ "Whenever the context contains garbled symbols like ‘�’, intelligently infer and replace the missing text from surrounding context, then reply with a clean, coherent answer free of any garbled characters.".

Record chat_message := ChatMessage { role : string; content : string }.

(** [f"[Doc {i+1}]\n" + d.page_content] *)
Definition labelled (i : nat) (d : Document) : string :=
  "[Doc " +:+ pretty (i + 1)%nat +:+ "]" +:+ newline +:+ page_content d.

Definition build_prompt (query : string) (context_docs : list Document)
  : list chat_message :=
  let context := join blank_line (imap labelled context_docs) in
  let user_msg :=
    ("Context:" +:+ newline +:+ context +:+ blank_line)
    +:+ ("Question: " +:+ query +:+ blank_line)
    +:+ "Answer:" in
  [ {| role := "system"; content := SYSTEM_PROMPT |};
    {| role := "user"; content := user_msg |} ].

Section Answer.

(** [OpenAI(model=...).invoke(messages, max_tokens=...)]: the chat backend,
    given the model name, the messages and the bound on the response length. *)
Variable invoke : string → list chat_message → Z → string.

Definition generate_answer (query : string) (context_docs : list Document)
    (model : string) (max_tokens : Z) : string :=
  let messages := build_prompt query context_docs in
  invoke model messages max_tokens.

(** The default of the parameter [max_tokens] of [generate_answer]. *)
Definition default_max_tokens : Z := 512.

End Answer.

Section Pipeline.

Context {Score : Type}.
Variable score_lt : Score → Score → bool.
Variable predict : list (string * string) → list Score.
Variable similarity_search : string → Z → list Document.
Variable invoke : string → list chat_message → Z → string.

(** [answer_query], with the resources of [load_resources] (vector index,
    cross-encoder) as the section variables; [generate_answer] is called
    without [max_tokens], hence with its default. *)
Definition answer_query (query : string) (k1 k2 : Z) (llm_model : string)
  : string * list Document :=
  let candidates := retrieve similarity_search query k1 in
  let top_docs := rerank score_lt predict query candidates k2 in
  let answer := generate_answer invoke query top_docs llm_model default_max_tokens in
  (answer, top_docs).

End Pipeline.

(** The prompt of the specification:
    [Context:\n<block>\n\nQuestion:\n<query>\n\nAnswer:]. *)
Definition spec_template (block query : string) : string :=
  "Context:" +:+ newline +:+ block +:+ blank_line
  +:+ "Question:" +:+ newline +:+ query +:+ blank_line +:+ "Answer:".

(** The prompt the code composes:
    [Context:\n<block>\n\nQuestion: <query>\n\nAnswer:]. *)
Definition code_template (block query : string) : string :=
  "Context:" +:+ newline +:+ block +:+ blank_line
  +:+ "Question: " +:+ query +:+ blank_line +:+ "Answer:".

(** The context block in the words of the specification: the documents in
    order, each under its label [[Doc n]], numbered from [first_label]. *)
Fixpoint context_items (first_label : nat) (docs : list Document) : list string :=
  match docs with
  | [] => []
  | d :: docs' =>
      ("[Doc " +:+ pretty first_label +:+ "]" +:+ newline +:+ page_content d)
        :: context_items (S first_label) docs'
  end.

Definition context_block (docs : list Document) : string :=
  join blank_line (context_items 1 docs).

End RagQuery.

(** ** GraphBuilder.py *)

Module GraphBuilder.

(** *** Checkpoint ledger *)

(** One value of the checkpoint dict: [{"status": "pending"}],
    [{"status": "done", "result": r}] or [{"status": "error", "error": e}]. *)
Inductive CheckpointEntry :=
| Pending
| Done (result : string)
| Error (error : string).

Definition is_done (e : option CheckpointEntry) : bool :=
  match e with
  | Some (Done _) => true
  | _ => false
  end.

(** The checkpoint file: absent, or holding a whole ledger.  Loading an
    absent file gives the empty ledger. *)
Definition load (ckpt_file : option (gmap string CheckpointEntry))
  : gmap string CheckpointEntry :=
  match ckpt_file with
  | Some checkpoint => checkpoint
  | None => ∅
  end.

(** *** Text assembly *)

Definition extract_files_links (msg : message) : list string :=
  let extra_info_lines :=
    fold_left
      (fun lines f =>
         let file_summary := summary f in
         if nonempty file_summary
         then lines ++ ["Attached file summary: " +:+ file_summary]
         else lines)
      (files msg) [] in
  match extra_info_lines with
  | [] => []
  | _ => extra_info_lines
  end.

Definition extract_merge_text (text : string) (msg : message) : string :=
  let slack_text := replace "~" "" (replace "_" "" (replace "*" "" text)) in
  let slack_text :=
    replace "&amp;" "&" (replace "&gt;" ">" (replace "&lt;" "<" slack_text)) in
  let extra_info_lines := extract_files_links msg in
  match extra_info_lines with
  | [] => slack_text
  | _ => strip slack_text +:+ newline +:+ join newline extra_info_lines
  end.

(** Exceptions that leave the loop. *)
Inductive exn :=
| NameError (name : string)
| ValueError (msg : string).

(** The module-level variable [slack_content] is [None] while unbound.
    Lines 112-114: it is assigned only when the message has a body. *)
Definition assign_body (slack_content : option string) (msg : message)
  : option string :=
  let text := text msg in
  if nonempty text then Some (extract_merge_text text msg) else slack_content.

(** Lines 116-121: [slack_content += ...] for every reply that has a body;
    the augmented assignment reads the variable first. *)
Fixpoint append_replies (slack_content : option string) (replies : list message)
  : exn + option string :=
  match replies with
  | [] => inr slack_content
  | reply :: replies' =>
      let reply_text := text reply in
      if nonempty reply_text then
        match slack_content with
        | None => inl (NameError "slack_content")
        | Some s =>
            append_replies
              (Some (s +:+ blank_line +:+ extract_merge_text reply_text reply))
              replies'
        end
      else append_replies slack_content replies'
  end.

(** *** Paragraph packing *)

Definition token_limit : nat := 3000.

Section Chunking.

(** [len(encoding.encode(s))] for the [cl100k_base] encoding, for a run in
    which [encode] returns on every text it is given. *)
Variable ntokens : string → nat.

Definition id_document (msg_id : string) (content : string) : Document :=
  {| page_content := content; metadata := {[ "id" := msg_id ]} |}.

(** The state of the inner loop: [current_chunk], [current_tokens],
    [documents]. *)
Definition pack_state : Type := string * nat * list Document.

Definition pack_step (msg_id : string) (st : pack_state) (para : string)
  : pack_state :=
  let '(current_chunk, current_tokens, documents) := st in
  let para_tokens := ntokens para in
  if (current_tokens + para_tokens <? token_limit)%nat then
    (current_chunk +:+ (para +:+ blank_line),
     (current_tokens + para_tokens)%nat,
     documents)
  else
    let documents :=
      if nonempty current_chunk
      then documents ++ [id_document msg_id (strip current_chunk)]
      else documents in
    (para +:+ blank_line, para_tokens, documents).

(** Lines 124-145. *)
Definition split_documents (msg_id : string) (slack_content : string)
  : list Document :=
  let tokens := ntokens slack_content in
  if (token_limit <? tokens)%nat then
    let paragraphs := split blank_line slack_content in
    let '(current_chunk, _, documents) :=
      fold_left (pack_step msg_id) paragraphs (EmptyString, 0%nat, []) in
    if nonempty current_chunk
    then documents ++ [id_document msg_id (strip current_chunk)]
    else documents
  else [id_document msg_id slack_content].

End Chunking.

(** *** The batch loop *)

Section Loop.

Context {GraphDocument Backend : Type}.

Variable ntokens : string → nat.

(** [graph_transformer.convert_to_graph_documents([doc])] and
    [graph.add_graph_documents(graph_docs)]: each call may change the state of
    the outside world and either returns or raises; [inl m] and [Some m] stand
    for an exception [e] with [str(e) = m]. *)
Variable convert_to_graph_documents :
  Backend → Document → Backend * (string + list GraphDocument).
Variable add_graph_documents :
  Backend → list GraphDocument → Backend * option string.

(** What the loop does to the outside world and to the ledger, in order. *)
Inductive event :=
| ESet (msg_id : string) (entry : CheckpointEntry)
    (* checkpoint[msg_id] = entry *)
| EDump (checkpoint : gmap string CheckpointEntry)
    (* json.dump(checkpoint, ckpt_file) *)
| EConvert (msg_id : string) (doc : Document)
    (* graph_transformer.convert_to_graph_documents([doc]) *)
| EAddGraph (msg_id : string) (graph_docs : list GraphDocument).
    (* graph.add_graph_documents(graph_docs) *)

Record loop_state := LoopState {
  checkpoint : gmap string CheckpointEntry;         (* the dict in memory *)
  ckpt_file : option (gmap string CheckpointEntry); (* the file on disk *)
  slack_content : option string;                    (* module-level variable *)
  backend : Backend
}.

(** [checkpoint[msg_id] = entry] followed by the dump of the whole dict. *)
Definition set_and_dump (st : loop_state) (msg_id : string) (entry : CheckpointEntry)
  : loop_state * list event :=
  let checkpoint' := <[msg_id := entry]> (checkpoint st) in
  ({| checkpoint := checkpoint';
      ckpt_file := Some checkpoint';
      slack_content := slack_content st;
      backend := backend st |},
   [ESet msg_id entry; EDump checkpoint']).

(** Lines 150-154: the sub-units are converted in order; the first exception
    ends the loop. *)
Fixpoint convert_all (be : Backend) (msg_id : string) (documents : list Document)
    (graph_docs : list GraphDocument)
  : Backend * list event * (string + list GraphDocument) :=
  match documents with
  | [] => (be, [], inr graph_docs)
  | doc :: documents' =>
      let '(be1, r) := convert_to_graph_documents be doc in
      match r with
      | inl err_msg => (be1, [EConvert msg_id doc], inl err_msg)
      | inr result_docs =>
          let '(be2, evs, r') :=
            convert_all be1 msg_id documents' (graph_docs ++ result_docs) in
          (be2, EConvert msg_id doc :: evs, r')
      end
  end.

(** Lines 148-157: the body of [try], up to the insertion. *)
Definition unit_of_work (be : Backend) (msg_id : string) (documents : list Document)
  : Backend * list event * option string :=
  let '(be1, evs, r) := convert_all be msg_id documents [] in
  match r with
  | inl err_msg => (be1, evs, Some err_msg)
  | inr graph_docs =>
      let '(be2, r') := add_graph_documents be1 graph_docs in
      (be2, evs ++ [EAddGraph msg_id graph_docs], r')
  end.

Definition done_result : string :=
  "Processed message {msg_id}: extracted {len(graph_docs)} graphs".

Definition with_content (st : loop_state) (sc : option string) : loop_state :=
  {| checkpoint := checkpoint st; ckpt_file := ckpt_file st;
     slack_content := sc; backend := backend st |}.

Definition with_backend (st : loop_state) (be : Backend) : loop_state :=
  {| checkpoint := checkpoint st; ckpt_file := ckpt_file st;
     slack_content := slack_content st; backend := be |}.

(** One iteration of the [for] loop (lines 99-172).  The third component is
    the exception that escapes the iteration, if any. *)
Definition process_message (st : loop_state) (msg : message)
  : loop_state * list event * option exn :=
  let msg_id := timestamp msg in
  if negb (nonempty msg_id) then (st, [], None)
  else if is_done (checkpoint st !! msg_id) then (st, [], None)
  else
    let '(st1, evs1) := set_and_dump st msg_id Pending in
    let st2 := with_content st1 (assign_body (slack_content st1) msg) in
    match append_replies (slack_content st2) (thread_replies msg) with
    | inl e => (st2, evs1, Some e)
    | inr sc =>
        let st3 := with_content st2 sc in
        match sc with
        | None => (st3, evs1, Some (NameError "slack_content"))
        | Some content =>
            let documents := split_documents ntokens msg_id content in
            let '(be, evs2, r) := unit_of_work (backend st3) msg_id documents in
            let st4 := with_backend st3 be in
            let '(st5, evs3) :=
              match r with
              | None => set_and_dump st4 msg_id (Done done_result)
              | Some err_msg => set_and_dump st4 msg_id (Error err_msg)
              end in
            (st5, evs1 ++ evs2 ++ evs3, None)
        end
    end.

Inductive outcome :=
| Completed
| Aborted (e : exn).

(** The [for] loop over the messages. *)
Fixpoint run (st : loop_state) (messages : list message)
  : loop_state * list event * outcome :=
  match messages with
  | [] => (st, [], Completed)
  | msg :: messages' =>
      let '(st1, evs, raised) := process_message st msg in
      match raised with
      | Some e => (st1, evs, Aborted e)
      | None =>
          let '(st2, evs', out) := run st1 messages' in
          (st2, evs ++ evs', out)
      end
  end.

(** The state in which the loop starts (lines 59-64): the ledger is loaded
    from the file and [slack_content] is not bound yet. *)
Definition initial_state (file : option (gmap string CheckpointEntry)) (be : Backend)
  : loop_state :=
  {| checkpoint := load file; ckpt_file := file;
     slack_content := None; backend := be |}.

Definition batch (file : option (gmap string CheckpointEntry)) (be : Backend)
    (messages : list message) : loop_state * list event * outcome :=
  run (initial_state file be) messages.

(** *** Reading a trace *)

(** The item a backend call works for. *)
Definition call_of (ev : event) : option string :=
  match ev with
  | EConvert msg_id _ => Some msg_id
  | EAddGraph msg_id _ => Some msg_id
  | _ => None
  end.

Definition calls (tr : list event) : list event :=
  List.filter (fun ev => bool_decide (is_Some (call_of ev))) tr.

(** The ledger in memory after the assignments of a trace. *)
Definition replay (c : gmap string CheckpointEntry) (tr : list event)
  : gmap string CheckpointEntry :=
  fold_left
    (fun c ev => match ev with ESet i e => <[i := e]> c | _ => c end) tr c.

(** The file after the dumps of a trace. *)
Definition file_after (f : option (gmap string CheckpointEntry)) (tr : list event)
  : option (gmap string CheckpointEntry) :=
  fold_left
    (fun f ev => match ev with EDump c => Some c | _ => f end) tr f.

End Loop.

(** *** The batch loop with a tokenizer that can raise *)

(** [ntokens] above stands for a tokenizer that returns on every text.
    [encoding.encode] raises [ValueError] on a text that holds a special
    token; the calls at lines 124 and 132 are outside the [try].  The loop is
    given again here with the raising tokenizer; with a tokenizer that always
    returns it is the loop above.  In both, the records are JSON objects with
    string fields and writing the checkpoint file succeeds. *)

Section CheckedLoop.

Context {GraphDocument Backend : Type}.

(** [len(encoding.encode(s))], or [inl m] when [encode] raises a
    [ValueError] [e] with [str(e) = m]. *)
Variable encode_len : string → string + nat.

Variable convert_to_graph_documents :
  Backend → Document → Backend * (string + list GraphDocument).
Variable add_graph_documents :
  Backend → list GraphDocument → Backend * option string.

(** Lines 133-140, once [para_tokens] is known. *)
Definition pack_with (msg_id : string) (st : pack_state) (para : string)
    (para_tokens : nat) : pack_state :=
  let '(current_chunk, current_tokens, documents) := st in
  if (current_tokens + para_tokens <? token_limit)%nat then
    (current_chunk +:+ (para +:+ blank_line),
     (current_tokens + para_tokens)%nat,
     documents)
  else
    let documents :=
      if nonempty current_chunk
      then documents ++ [id_document msg_id (strip current_chunk)]
      else documents in
    (para +:+ blank_line, para_tokens, documents).

(** One paragraph of the inner loop; an exception ends the loop. *)
Definition pack_step_checked (msg_id : string) (st : exn + pack_state)
    (para : string) : exn + pack_state :=
  match st with
  | inl e => inl e
  | inr st =>
      match encode_len para with
      | inl m => inl (ValueError m)
      | inr para_tokens => inr (pack_with msg_id st para para_tokens)
      end
  end.

(** Lines 124-145. *)
Definition split_documents_checked (msg_id : string) (slack_content : string)
  : exn + list Document :=
  match encode_len slack_content with
  | inl m => inl (ValueError m)
  | inr tokens =>
      if (token_limit <? tokens)%nat then
        let paragraphs := split blank_line slack_content in
        match fold_left (pack_step_checked msg_id) paragraphs
                        (inr (EmptyString, 0%nat, [])) with
        | inl e => inl e
        | inr (current_chunk, _, documents) =>
            inr (if nonempty current_chunk
                 then documents ++ [id_document msg_id (strip current_chunk)]
                 else documents)
        end
      else inr [id_document msg_id slack_content]
  end.

(** One iteration of the [for] loop (lines 99-172). *)
Definition process_message_checked (st : loop_state) (msg : message)
  : loop_state * list event * option exn :=
  let msg_id := timestamp msg in
  if negb (nonempty msg_id) then (st, [], None)
  else if is_done (checkpoint st !! msg_id) then (st, [], None)
  else
    let '(st1, evs1) := set_and_dump st msg_id Pending in
    let st2 := with_content st1 (assign_body (slack_content st1) msg) in
    match append_replies (slack_content st2) (thread_replies msg) with
    | inl e => (st2, evs1, Some e)
    | inr sc =>
        let st3 := with_content st2 sc in
        match sc with
        | None => (st3, evs1, Some (NameError "slack_content"))
        | Some content =>
            match split_documents_checked msg_id content with
            | inl e => (st3, evs1, Some e)
            | inr documents =>
                let '(be, evs2, r) :=
                  unit_of_work convert_to_graph_documents add_graph_documents
                               (backend st3) msg_id documents in
                let st4 := with_backend st3 be in
                let '(st5, evs3) :=
                  match r with
                  | None => set_and_dump st4 msg_id (Done done_result)
                  | Some err_msg => set_and_dump st4 msg_id (Error err_msg)
                  end in
                (st5, evs1 ++ evs2 ++ evs3, None)
            end
        end
    end.

Fixpoint run_checked (st : loop_state) (messages : list message)
  : loop_state * list event * outcome :=
  match messages with
  | [] => (st, [], Completed)
  | msg :: messages' =>
      let '(st1, evs, raised) := process_message_checked st msg in
      match raised with
      | Some e => (st1, evs, Aborted e)
      | None =>
          let '(st2, evs', out) := run_checked st1 messages' in
          (st2, evs ++ evs', out)
      end
  end.

End CheckedLoop.

End GraphBuilder.

(** ** VectorStoreSaver.py *)

Module VectorStoreSaver.

Inductive exn :=
| ValueError (msg : string)
| AssertionError (msg : string).

(** The test of [_read_json_records] on one record of a chunk file (a dict
    after [json.load]): both keys are present. *)
Definition has_schema (rec : gmap string string) : bool :=
  bool_decide (is_Some (rec !! "timestamp"))
  && bool_decide (is_Some (rec !! "text")).

(** [data] is what [json.load] returns for the file at [path]. *)
Definition _read_json_records (path : string) (data : list (gmap string string))
  : exn + list (gmap string string) :=
  if forallb has_schema data then inr data
  else inl (ValueError ("Invalid schema in " +:+ path
                          +:+ "; each record needs 'timestamp' and 'text'.")).

(** [rec["text"]] and [{"timestamp": rec["timestamp"]}] for a record that
    passed the test. *)
Definition text_of (rec : gmap string string) : string :=
  default "" (rec !! "text").

Definition metadata_of (rec : gmap string string) : gmap string string :=
  {[ "timestamp" := default "" (rec !! "timestamp") ]}.

(** Lines 44-48: the texts and metadata of all files, in order; the files
    are given with their content. *)
Fixpoint gather (input_files : list (string * list (gmap string string)))
    (texts : list string) (metadatas : list (gmap string string))
  : exn + (list string * list (gmap string string)) :=
  match input_files with
  | [] => inr (texts, metadatas)
  | (p, data) :: input_files' =>
      match _read_json_records p data with
      | inl e => inl e
      | inr records =>
          let '(texts, metadatas) :=
            fold_left
              (fun '(texts, metadatas) rec =>
                 (texts ++ [text_of rec], metadatas ++ [metadata_of rec]))
              records (texts, metadatas) in
          gather input_files' texts metadatas
      end
  end.

(** [range(start, stop, step)] as the list of its elements. *)
Definition range (start stop step : Z) : exn + list Z :=
  if (step =? 0)%Z then inl (ValueError "range() arg 3 must not be zero")
  else
    let n :=
      if (0 <? step)%Z then ((stop - start + step - 1) / step)%Z
      else ((start - stop - step - 1) / (- step))%Z in
    inr (map (fun j => (start + Z.of_nat j * step)%Z) (seq 0 (Z.to_nat n))).

(** [l[i:j]]: a negative index counts from the end, and both indices are
    brought into the bounds of the list. *)
Definition clamp_index (len : nat) (x : Z) : nat :=
  let x := if (x <? 0)%Z then (x + Z.of_nat len)%Z else x in
  Z.to_nat (Z.min (Z.of_nat len) (Z.max 0 x)).

Definition slice {A} (i j : Z) (l : list A) : list A :=
  let a := clamp_index (length l) i in
  let b := clamp_index (length l) j in
  take (b - a) (drop a l).

(** The calls made on the vector store. *)
Inductive call :=
| FromTexts (texts : list string) (metadatas : list (gmap string string))
    (* FAISS.from_texts(batch_texts, embeddings, metadatas=batch_meta) *)
| AddTexts (texts : list string) (metadatas : list (gmap string string))
    (* vectordb.add_texts(batch_texts, metadatas=batch_meta) *)
| SaveLocal (index_out : string).
    (* vectordb.save_local(str(index_out)) *)

(** One iteration of the loop of lines 61-68; [created] tells whether
    [vectordb] is not [None] any more. *)
Definition embed_batch (texts : list string) (metadatas : list (gmap string string))
    (texts_per_batch : Z) (st : bool * list call) (i : Z) : bool * list call :=
  let '(created, log) := st in
  let batch_texts := slice i (i + texts_per_batch) texts in
  let batch_meta := slice i (i + texts_per_batch) metadatas in
  if created then (true, log ++ [AddTexts batch_texts batch_meta])
  else (true, log ++ [FromTexts batch_texts batch_meta]).

(** [build_vector_store]: the calls made on the store and the exception
    raised, if any. *)
Definition build_vector_store
    (input_files : list (string * list (gmap string string)))
    (index_out : string) (texts_per_batch : Z) : list call * option exn :=
  match gather input_files [] [] with
  | inl e => ([], Some e)
  | inr (texts, metadatas) =>
      let total := Z.of_nat (length texts) in
      match range 0 total texts_per_batch with
      | inl e => ([], Some e)
      | inr indices =>
          let '(created, log) :=
            fold_left (embed_batch texts metadatas texts_per_batch)
                      indices (false, []) in
          if created then (log ++ [SaveLocal index_out], None)
          else (log, Some (AssertionError "No data embedded!"))
      end
  end.

(** *** Reading the calls *)

Definition call_texts (c : call) : list string :=
  match c with
  | FromTexts texts _ | AddTexts texts _ => texts
  | SaveLocal _ => []
  end.

Definition call_metadatas (c : call) : list (gmap string string) :=
  match c with
  | FromTexts _ metadatas | AddTexts _ metadatas => metadatas
  | SaveLocal _ => []
  end.

Definition is_add (c : call) : bool :=
  match c with AddTexts _ _ => true | _ => false end.

(** All records of all files, in order. *)
Definition all_records (input_files : list (string * list (gmap string string)))
  : list (gmap string string) :=
  concat (map snd input_files).

(** The first file that has a record without one of the keys. *)
Definition first_invalid (input_files : list (string * list (gmap string string)))
  : option string :=
  fst <$> List.find (fun f => negb (forallb has_schema (snd f))) input_files.

End VectorStoreSaver.

(** ** The batch loop in the words of the specification *)

Module BatchSpec.

Import GraphBuilder.

Section Packing.

Variable ntokens : string → nat.

(** A group is a run of consecutive paragraphs packed into one sub-unit; its
    token count is the sum the loop keeps in [current_tokens]. *)
Definition group_tokens (g : list string) : nat :=
  foldr (fun p n => (ntokens p + n)%nat) 0%nat g.

(** The text of a group: every paragraph followed by the delimiter. *)
Definition glue (g : list string) : string :=
  foldr (fun p s => (p +:+ blank_line) +:+ s) EmptyString g.

(** The sub-unit emitted for a group. *)
Definition render (msg_id : string) (g : list string) : Document :=
  id_document msg_id (strip (glue g)).

(** The open group as a list of closed groups. *)
Definition closed (cur : list string) : list (list string) :=
  match cur with [] => [] | _ => [cur] end.

(** A group was never extended beyond the budget: it is a single paragraph
    or its count is below the limit. *)
Definition within_budget (g : list string) : Prop :=
  length g = 1%nat ∨ (group_tokens g < token_limit)%nat.

(** Greedy packing: [cur] is the open group, [cur_tokens] its count. *)
Fixpoint pack_groups (cur : list string) (cur_tokens : nat) (paras : list string)
  : list (list string) :=
  match paras with
  | [] => closed cur
  | p :: paras' =>
      if (cur_tokens + ntokens p <? token_limit)%nat
      then pack_groups (cur ++ [p]) (cur_tokens + ntokens p) paras'
      else closed cur ++ pack_groups [p] (ntokens p) paras'
  end.

End Packing.

Section Discipline.

Context {GraphDocument : Type}.

(** The write discipline of the ledger, checked along a trace: [c] is the
    ledger in memory, [f] the file, [dirty] tells that an assignment has not
    been dumped yet.  An assignment is followed at once by a dump of the
    whole ledger; a backend call for an item happens only while the file
    equals the ledger and records the item as pending. *)
Fixpoint disciplined (c : gmap string CheckpointEntry)
    (f : option (gmap string CheckpointEntry)) (dirty : bool)
    (tr : list (@event GraphDocument)) : Prop :=
  match tr with
  | [] => dirty = false
  | ESet i e :: tr' => dirty = false ∧ disciplined (<[i := e]> c) f true tr'
  | EDump c' :: tr' => dirty = true ∧ c' = c ∧ disciplined c (Some c) false tr'
  | ev :: tr' =>
      dirty = false ∧ f = Some c
      ∧ (∃ i, call_of ev = Some i ∧ c !! i = Some Pending)
      ∧ disciplined c f false tr'
  end.

End Discipline.

Section Iteration.

Context {GraphDocument Backend : Type}.
Variable ntokens : string → nat.

(** A backend call made for the item [msg_id]. *)
Definition call_for (msg_id : string) (ev : @event GraphDocument) : Prop :=
  call_of ev = Some msg_id.

(** What one iteration does: it skips the item, or marks it pending and
    aborts the loop, or marks it pending, calls the backends and records the
    result. *)
Inductive iteration (st : @loop_state Backend) (msg : message)
  : loop_state → list (@event GraphDocument) → option exn → Prop :=
| it_skip :
    timestamp msg = "" ∨ is_done (checkpoint st !! timestamp msg) = true →
    iteration st msg st [] None
| it_abort st' e :
    timestamp msg ≠ "" →
    is_done (checkpoint st !! timestamp msg) = false →
    checkpoint st' = <[timestamp msg := Pending]> (checkpoint st) →
    ckpt_file st' = Some (checkpoint st') →
    iteration st msg st'
      [ESet (timestamp msg) Pending; EDump (checkpoint st')] (Some e)
| it_processed st' content cs entry :
    timestamp msg ≠ "" →
    is_done (checkpoint st !! timestamp msg) = false →
    checkpoint st'
    = <[timestamp msg := entry]> (<[timestamp msg := Pending]> (checkpoint st)) →
    ckpt_file st' = Some (checkpoint st') →
    slack_content st' = Some content →
    Forall (call_for (timestamp msg)) cs →
    (∃ d, In (EConvert (timestamp msg) d) cs) →
    (entry = Done done_result
     ∧ (∃ gds, cs = map (EConvert (timestamp msg))
                        (split_documents ntokens (timestamp msg) content)
                      ++ [EAddGraph (timestamp msg) gds])
     ∨ ∃ err_msg, entry = Error err_msg) →
    iteration st msg st'
      ([ESet (timestamp msg) Pending;
        EDump (<[timestamp msg := Pending]> (checkpoint st))]
         ++ cs ++ [ESet (timestamp msg) entry; EDump (checkpoint st')])
      None.

(** A run of the loop over a list of messages, iteration by iteration. *)
Inductive execution (st : @loop_state Backend)
  : list message → loop_state → list (@event GraphDocument) → outcome → Prop :=
| ex_end : execution st [] st [] Completed
| ex_abort msg messages st' tr e :
    iteration st msg st' tr (Some e) →
    execution st (msg :: messages) st' tr (Aborted e)
| ex_step msg messages st1 tr1 st2 tr2 out :
    iteration st msg st1 tr1 None →
    execution st1 messages st2 tr2 out →
    execution st (msg :: messages) st2 (tr1 ++ tr2) out.

End Iteration.

End BatchSpec.

(** ** Reading the ledger and the trace *)

Module BatchLedger.

Import GraphBuilder.

(** An entry that records an outcome: done or error. *)
Definition settled (e : option CheckpointEntry) : bool :=
  match e with
  | Some (Done _) | Some (Error _) => true
  | _ => false
  end.

(** The assignments of a [done] entry to the item [i] in a trace. *)
Definition marks_done {GraphDocument : Type} (i : string)
    (ev : @event GraphDocument) : bool :=
  match ev with
  | ESet j (Done _) => bool_decide (j = i)
  | _ => false
  end.

Definition successes {GraphDocument : Type} (i : string)
    (tr : list (@event GraphDocument)) : nat :=
  length (List.filter (marks_done i) tr).

End BatchLedger.

(** ** Predicates used in the statements *)

(** The characters of a string. *)
Abbreviation chars := list_ascii_of_string.

(** Text free of markup characters and of ampersands: nothing in it for the
    normalizer to remove or decode. *)
Definition plain_char (c : ascii) : bool :=
  negb (DataProcessor.markup_class c) && negb (Ascii.eqb c "&").

Definition plain (s : string) : bool := forallb plain_char (chars s).

(** The first and the last character, if any, are not white space. *)
Definition trimmed (s : string) : Prop :=
  starts_with_space wide_spaces s = false
  ∧ starts_with_space (map String.rev wide_spaces) (String.rev s) = false.

(** "The markup characters removed": the other characters, in their order. *)
Definition without_markup (s : string) : string :=
  string_of_list_ascii
    (List.filter (fun c => negb (DataProcessor.markup_class c)) (chars s)).

(** "The escapes decoded": the text is read once from the left; where one
    of the escapes of [table] starts, its character is written and reading
    resumes after the escape; any other character is copied.  [skip] counts
    the characters of the current escape still to be passed over. *)
Fixpoint decode_go (table : list (string * string)) (skip : nat) (s : string)
  : string :=
  match s with
  | EmptyString => EmptyString
  | String c s' =>
      match skip with
      | S k => decode_go table k s'
      | O =>
          match List.find (fun e => String.prefix (fst e) s) table with
          | Some e => snd e +:+ decode_go table (String.length (fst e) - 1) s'
          | None => String c (decode_go table 0 s')
          end
      end
  end.

Definition decode_entities (table : list (string * string)) (s : string)
  : string :=
  decode_go table 0 s.

(** The four markup-significant character entities of HTML 4 with the
    characters they stand for. *)
Definition html4_entities : list (string * string) :=
  [ ("&lt;", "<"); ("&gt;", ">"); ("&amp;", "&");
    ("&quot;", String "034" EmptyString) ].

(** The three escapes Slack itself produces. *)
Definition slack_entities : list (string * string) :=
  [ ("&lt;", "<"); ("&gt;", ">"); ("&amp;", "&") ].

(** ** Sample inputs *)

(** Three threads and a record without id; the first thread has two replies. *)
Definition thread_example : list message :=
  [ Message "1" "*root* &amp; co" [File "plan"; File ""]
      [ Message "1.1" "first _reply_" [] [];
        Message "1.2" "second reply" [File "notes"] [] ];
    Message "2" "alone" [] [];
    Message "" "no id" [] [];
    Message "3" "" [] [] ].

(** A scoring backend for the examples: the score of a pair is the length of
    the candidate text. *)
Definition length_score (pairs : list (string * string)) : list Z :=
  map (fun p => Z.of_nat (String.length (snd p))) pairs.

(** Four candidates; the first and the third are tied. *)
Definition candidates_example : list Document :=
  [ Doc "aa" ∅; Doc "bbbb" ∅; Doc "cc" ∅; Doc "d" ∅ ].

(** A tokenizer for the examples: one token per word.  On a text made of
    the word [a] repeated with single spaces it counts what [cl100k_base]
    counts. *)
Definition word_count (s : string) : nat := length (String.words s).

Fixpoint repeat_string (n : nat) (s : string) : string :=
  match n with
  | O => EmptyString
  | S n' => s +:+ repeat_string n' s
  end.

(** 3001 words and no paragraph break. *)
Definition long_paragraph : string := repeat_string 3000 "a " +:+ "a".

(** 2000 words, a paragraph break, 1500 words. *)
Definition two_paragraphs : string :=
  (repeat_string 1999 "a " +:+ "a") +:+ PyStr.blank_line
    +:+ (repeat_string 1499 "b " +:+ "b").

(** Backends for the examples: the extraction returns the text of the
    sub-unit as its only graph document and fails on the text [boom]; the
    insertion accepts everything.  The backend state counts the calls. *)
Definition echo_convert (calls : nat) (doc : Document)
  : nat * (string + list string) :=
  if String.eqb (page_content doc) "boom"
  then (S calls, inl "extraction failed")
  else (S calls, inr [page_content doc]).

Definition accept_add (calls : nat) (graph_docs : list string)
  : nat * option string :=
  (S calls, None).

(** A batch whose first record has no body, and one that can be processed. *)
Definition bodyless_first : list message :=
  [ Message "1" "" [] []; Message "2" "hello" [] [] ].

Definition small_batch : list message :=
  [ Message "1" "hello" [] [ Message "1.1" "world" [] [] ];
    Message "2" "boom" [] [];
    Message "" "no id" [] [];
    Message "3" "" [File "sheet"] [] ].

(** A batch in which every item succeeds. *)
Definition clean_batch : list message :=
  [ Message "1" "hello" [] [ Message "1.1" "world" [] [] ];
    Message "2" "bye" [File "sheet"] [] ].

(** Two chunk files with five records in all, and a file with a record that
    lacks its text. *)
Definition chunk_record (ts text : string) : gmap string string :=
  {[ "timestamp" := ts; "text" := text ]}.

Definition chunk_files : list (string * list (gmap string string)) :=
  [ ("a.json", [chunk_record "1" "one"; chunk_record "1" "two";
                chunk_record "2" "three"]);
    ("b.json", [chunk_record "3" "four"; chunk_record "4" "five"]) ].

Definition broken_files : list (string * list (gmap string string)) :=
  [ ("a.json", [chunk_record "1" "one"]);
    ("bad.json", [chunk_record "2" "two"; {[ "timestamp" := "3" ]}]) ].

(** [sub] occurs in [s]. *)
Fixpoint contains (sub s : string) : bool :=
  String.prefix sub s
  || match s with
     | EmptyString => false
     | String _ s' => contains sub s'
     end.

(** A tokenizer for the examples that refuses a special token, and one that
    always returns. *)
Definition guarded_word_count (s : string) : string + nat :=
  if contains "<|endoftext|>" s then inl "disallowed special token"
  else inr (word_count s).

Definition total_word_count (s : string) : string + nat := inr (word_count s).

(** A batch whose second record quotes a special token. *)
Definition quoting_batch : list message :=
  [ Message "1" "hello" [] [];
    Message "2" "see &lt;|endoftext|&gt;" [] [];
    Message "3" "bye" [] [] ].

(** A record with an attachment and no body, and a loop state in which an
    earlier item has left its content behind. *)
Definition bodyless_message : message := Message "3" "" [File "sheet"] [].

Definition state_after_item : @GraphBuilder.loop_state nat :=
  GraphBuilder.LoopState ∅ None (Some "earlier item") 0%nat.

(** * Properties *)

(** ** Strings *)

Section StringFacts.

Lemma sapp_nil_l (s : string) : "" +:+ s = s.
Proof. done. Qed.

Lemma sapp_cons (c : ascii) (a b : string) : String c a +:+ b = String c (a +:+ b).
Proof. done. Qed.

Lemma sapp_nil_r (s : string) : s +:+ "" = s.
Proof. induction s as [|c s IH]; [done|]. by rewrite sapp_cons, IH. Qed.

Lemma sapp_assoc (a b c : string) : (a +:+ b) +:+ c = a +:+ (b +:+ c).
Proof. induction a as [|x a IH]; [done|]. by rewrite !sapp_cons, IH. Qed.

Lemma chars_app (a b : string) : chars (a +:+ b) = chars a ++ chars b.
Proof. induction a as [|x a IH]; [done|]. rewrite sapp_cons. simpl. by rewrite IH. Qed.

Lemma chars_rev_app (a b : string) :
  chars (String.rev_app a b) = rev (chars a) ++ chars b.
Proof.
  revert b. induction a as [|x a IH]; intros b; simpl; [done|].
  rewrite IH. simpl. by rewrite <- app_assoc.
Qed.

Lemma chars_rev (s : string) : chars (String.rev s) = rev (chars s).
Proof. unfold String.rev. rewrite chars_rev_app. simpl. by rewrite app_nil_r. Qed.

Lemma chars_inj (a b : string) : chars a = chars b → a = b.
Proof.
  intros H. rewrite <- (string_of_list_ascii_of_string a).
  rewrite <- (string_of_list_ascii_of_string b). by rewrite H.
Qed.

Lemma srev_involutive (s : string) : String.rev (String.rev s) = s.
Proof. apply chars_inj. rewrite !chars_rev. apply rev_involutive. Qed.

Lemma plain_app (a b : string) : plain (a +:+ b) = plain a && plain b.
Proof. unfold plain. rewrite chars_app. apply forallb_app. Qed.

Lemma nonempty_true (s : string) : nonempty s = true ↔ s ≠ "".
Proof. destruct s; simpl; split; done. Qed.

Lemma prefix_split old s :
  String.prefix old s = true → ∃ r, s = old +:+ r.
Proof.
  revert s. induction old as [|c old IH]; intros s H.
  - by exists s.
  - destruct s as [|x s]; [discriminate H|]. simpl in H.
    destruct (ascii_dec c x) as [->|]; [|discriminate H].
    destruct (IH s H) as [r ->]. by exists r.
Qed.

Lemma slength_app a b :
  String.length (a +:+ b) = (String.length a + String.length b)%nat.
Proof. induction a as [|c a IH]; [done|]. rewrite sapp_cons. simpl. by rewrite IH. Qed.

End StringFacts.

(** ** The normalizer *)

Section Normalizer.

Import DataProcessor.

Lemma remove_chars_Forall (P : ascii → Prop) cls s :
  Forall P (chars s) → Forall P (chars (remove_chars cls s)).
Proof.
  induction s as [|c s IH]; simpl; [done|].
  intros H. apply Forall_cons in H as [Hc Hs].
  destruct (cls c); simpl; auto.
Qed.

Lemma remove_chars_gone cls s :
  Forall (fun c => cls c = false) (chars (remove_chars cls s)).
Proof.
  induction s as [|c s IH]; simpl; [constructor|].
  destruct (cls c) eqn:E; simpl; auto.
Qed.

Lemma remove_chars_id cls s :
  Forall (fun c => cls c = false) (chars s) → remove_chars cls s = s.
Proof.
  induction s as [|c s IH]; simpl; [done|].
  intros H. apply Forall_cons in H as [Hc Hs]. rewrite Hc. f_equal. auto.
Qed.

Lemma replace_go_0 old new c s :
  replace_go old new 0 (String c s)
  = if String.prefix old (String c s)
    then new +:+ replace_go old new (String.length old - 1) s
    else String c (replace_go old new 0 s).
Proof. done. Qed.

Lemma replace_go_S old new k c s :
  replace_go old new (S k) (String c s) = replace_go old new k s.
Proof. done. Qed.

Lemma replace_go_Forall (P : ascii → Prop) old new k s :
  Forall P (chars new) → Forall P (chars s) →
  Forall P (chars (replace_go old new k s)).
Proof.
  intros Hnew. revert k. induction s as [|c s IH]; intros k H; [done|].
  apply Forall_cons in H as [Hc Hs].
  destruct k as [|k]; [|rewrite replace_go_S; by apply IH].
  rewrite replace_go_0. destruct (String.prefix old (String c s)).
  - rewrite chars_app. apply Forall_app. split; [done|by apply IH].
  - simpl. constructor; [done|by apply IH].
Qed.

Lemma srev_app a b : String.rev (a +:+ b) = String.rev b +:+ String.rev a.
Proof. apply chars_inj. rewrite chars_rev, !chars_app, !chars_rev. apply rev_app_distr. Qed.

(** Stripping only takes characters away at the front. *)
Lemma strip_go_suffix wide k s : ∃ d, s = d +:+ strip_go wide k s.
Proof.
  revert k. induction s as [|c s IH]; intros k; [by exists ""|].
  destruct k as [|k]; cbn [strip_go].
  - destruct (ascii_space c).
    + destruct (IH 0%nat) as [d Hd]. exists (String c d).
      by rewrite sapp_cons, <- Hd.
    + destruct (List.find _ wide) as [w|]; [|by exists ""].
      destruct (IH (String.length w - 1)%nat) as [d Hd]. exists (String c d).
      by rewrite sapp_cons, <- Hd.
  - destruct (IH k) as [d Hd]. exists (String c d). by rewrite sapp_cons, <- Hd.
Qed.

Lemma find_none_existsb {A} (f : A → bool) l :
  List.find f l = None → existsb f l = false.
Proof.
  induction l as [|x l IH]; [done|]. simpl.
  destruct (f x); [done|]. exact IH.
Qed.

(** What is left does not start with white space. *)
Lemma strip_go_clean wide k s :
  starts_with_space wide (strip_go wide k s) = false.
Proof.
  revert k. induction s as [|c s IH]; intros k; [done|].
  destruct k as [|k]; cbn [strip_go]; [|apply IH].
  destruct (ascii_space c) eqn:Hc; [apply IH|].
  destruct (List.find _ wide) as [w|] eqn:Hf; [apply IH|].
  cbn [starts_with_space]. rewrite Hc. by apply find_none_existsb.
Qed.

Lemma prefix_mono w p x :
  String.prefix w p = true → String.prefix w (p +:+ x) = true.
Proof.
  revert p. induction w as [|c w IH]; intros p H; [by destruct (p +:+ x)|].
  destruct p as [|y p]; [discriminate H|]. rewrite sapp_cons. simpl in *.
  destruct (ascii_dec c y); [by apply IH|discriminate H].
Qed.

Lemma starts_with_space_mono wide p x :
  starts_with_space wide p = true → starts_with_space wide (p +:+ x) = true.
Proof.
  destruct p as [|c p]; [discriminate|]. rewrite sapp_cons.
  cbn [starts_with_space]. intros [H|H]%orb_true_iff; apply orb_true_iff.
  - by left.
  - right. apply existsb_exists in H as (w & Hw & Hp).
    apply existsb_exists. exists w. split; [done|].
    by apply (prefix_mono w (String c p) x).
Qed.

Lemma strip_Forall (P : ascii → Prop) s :
  Forall P (chars s) → Forall P (chars (strip s)).
Proof.
  intros H. unfold strip, rstrip, lstrip.
  destruct (strip_go_suffix wide_spaces 0 s) as [d Hd].
  rewrite Hd, chars_app in H. apply Forall_app in H as [_ H].
  apply Forall_rev in H. rewrite <- chars_rev in H.
  destruct (strip_go_suffix (map String.rev wide_spaces) 0
              (String.rev (strip_go wide_spaces 0 s))) as [d' Hd'].
  rewrite Hd', chars_app in H. apply Forall_app in H as [_ H].
  rewrite chars_rev. by apply Forall_rev.
Qed.

Lemma strip_trimmed s : trimmed (strip s).
Proof.
  unfold strip, rstrip, lstrip.
  set (t := strip_go wide_spaces 0 s).
  set (r := strip_go (map String.rev wide_spaces) 0 (String.rev t)).
  split.
  - destruct (starts_with_space wide_spaces (String.rev r)) eqn:E; [|done].
    destruct (strip_go_suffix (map String.rev wide_spaces) 0 (String.rev t))
      as [d Hd]. fold r in Hd.
    apply (f_equal String.rev) in Hd. rewrite srev_involutive, srev_app in Hd.
    apply (starts_with_space_mono _ _ (String.rev d)) in E.
    rewrite <- Hd in E. unfold t in E. by rewrite strip_go_clean in E.
  - rewrite srev_involutive. apply strip_go_clean.
Qed.

(** Scanning for [old] passes over text that does not contain its first
    character. *)
Lemma replace_go_pass h t new a r :
  Forall (fun c => c ≠ h) (chars a) →
  replace_go (String h t) new 0 (a +:+ r)
  = a +:+ replace_go (String h t) new 0 r.
Proof.
  induction a as [|x a IH]; intros H; [done|].
  apply Forall_cons in H as [Hx Ha].
  rewrite !sapp_cons, replace_go_0.
  assert (String.prefix (String h t) (String x (a +:+ r)) = false) as ->.
  { simpl. destruct (ascii_dec h x) as [->|_]; done. }
  f_equal. auto.
Qed.

Lemma replace_go_skip old new x r :
  replace_go old new (String.length x) (x +:+ r) = replace_go old new 0 r.
Proof.
  induction x as [|c x IH]; [done|].
  rewrite sapp_cons. simpl String.length. by rewrite replace_go_S.
Qed.

Lemma prefix_app old r : String.prefix old (old +:+ r) = true.
Proof.
  induction old as [|c old IH]; [by destruct r|].
  rewrite sapp_cons. simpl. destruct (ascii_dec c c); [done|congruence].
Qed.

(** At an occurrence of [old], [new] is emitted and the scan resumes after
    the occurrence. *)
Lemma replace_at_occurrence h t new r :
  replace (String h t) new (String h t +:+ r) = new +:+ replace (String h t) new r.
Proof.
  unfold replace. rewrite sapp_cons, replace_go_0.
  rewrite <- sapp_cons, prefix_app.
  replace (String.length (String h t) - 1)%nat with (String.length t)
    by (simpl; lia).
  by rewrite replace_go_skip.
Qed.

Lemma replace_pass h t new a r :
  Forall (fun c => c ≠ h) (chars a) →
  replace (String h t) new (a +:+ r) = a +:+ replace (String h t) new r.
Proof. apply replace_go_pass. Qed.

Lemma replace_none h t new a :
  Forall (fun c => c ≠ h) (chars a) → replace (String h t) new a = a.
Proof.
  intros H. rewrite <- (sapp_nil_r a) at 1. rewrite replace_pass by done.
  unfold replace. simpl. apply sapp_nil_r.
Qed.

Lemma plain_no_amp a : plain a = true → Forall (fun c => c ≠ "&"%char) (chars a).
Proof.
  unfold plain. rewrite forallb_forall, Forall_forall.
  intros H c Hc. apply list_elem_of_In, H in Hc. unfold plain_char in Hc.
  apply andb_true_iff in Hc as [_ Hc]. apply negb_true_iff in Hc.
  by apply Ascii.eqb_neq in Hc.
Qed.

Lemma plain_no_markup a :
  plain a = true → Forall (fun c => markup_class c = false) (chars a).
Proof.
  unfold plain. rewrite forallb_forall, Forall_forall.
  intros H c Hc. apply list_elem_of_In, H in Hc. unfold plain_char in Hc.
  apply andb_true_iff in Hc as [Hc _]. by apply negb_true_iff in Hc.
Qed.

End Normalizer.

Section NormalizerSpec.

Import DataProcessor.

Lemma replace_mismatch h t new r :
  String.prefix (String h t) (String h r) = false →
  Forall (fun c => c ≠ h) (chars r) →
  replace (String h t) new (String h r) = String h r.
Proof.
  intros Hp Hr. unfold replace. rewrite replace_go_0, Hp.
  f_equal. by apply replace_none.
Qed.

(** The three replacements of the normalizer, on an escape that stands
    between two stretches of plain text. *)
Lemma unescape_between (e c a b : string) :
  In (e, c) slack_entities → plain a = true → plain b = true →
  replace "&amp;" "&" (replace "&gt;" ">" (replace "&lt;" "<" (a +:+ e +:+ b)))
  = a +:+ c +:+ b.
Proof.
  intros Hin Ha%plain_no_amp Hb%plain_no_amp.
  assert (Hlt : Forall (fun x => x ≠ "&"%char) (chars ("<" +:+ b)))
    by (rewrite sapp_cons; constructor; done).
  assert (Hgt : Forall (fun x => x ≠ "&"%char) (chars (">" +:+ b)))
    by (rewrite sapp_cons; constructor; done).
  simpl in Hin. destruct Hin as [[= <- <-]|[[= <- <-]|[[= <- <-]|[]]]].
  - rewrite (replace_pass _ _ _ a) by done.
    rewrite replace_at_occurrence, (replace_none _ _ _ b) by done.
    rewrite <- sapp_assoc.
    rewrite (replace_none _ _ _ ((a +:+ "<") +:+ b)), replace_none; try done.
    all: rewrite sapp_assoc, chars_app; apply Forall_app; done.
  - rewrite (replace_pass _ _ _ a) by done.
    rewrite !sapp_cons, sapp_nil_l, replace_mismatch;
      [|done|repeat constructor; done].
    rewrite (replace_pass _ _ _ a) by done.
    change (String "&" (String "g" (String "t" (String ";" b))))
      with ("&gt;" +:+ b).
    rewrite replace_at_occurrence, (replace_none _ _ _ b) by done.
    rewrite replace_none; [done|].
    rewrite chars_app; apply Forall_app; done.
  - rewrite (replace_pass _ _ _ a) by done.
    rewrite !sapp_cons, sapp_nil_l, replace_mismatch;
      [|done|repeat constructor; done].
    rewrite (replace_pass _ _ _ a) by done.
    rewrite replace_mismatch; [|done|repeat constructor; done].
    rewrite (replace_pass _ _ _ a) by done.
    change (String "&" (String "a" (String "m" (String "p" (String ";" b)))))
      with ("&amp;" +:+ b).
    rewrite replace_at_occurrence, (replace_none _ _ _ b) by done.
    done.
Qed.

(** An escape other than the three, here [&quot;], goes through unchanged. *)
Lemma unescape_quot (a b : string) :
  plain a = true → plain b = true →
  replace "&amp;" "&" (replace "&gt;" ">" (replace "&lt;" "<" (a +:+ "&quot;" +:+ b)))
  = a +:+ "&quot;" +:+ b.
Proof.
  intros Ha%plain_no_amp Hb%plain_no_amp.
  do 3 (rewrite (replace_pass _ _ _ a) by done;
        rewrite ?sapp_cons, ?sapp_nil_l, replace_mismatch;
          [|done|repeat constructor; done]).
  done.
Qed.

Lemma unescape_plain (a : string) :
  plain a = true →
  replace "&amp;" "&" (replace "&gt;" ">" (replace "&lt;" "<" a)) = a.
Proof.
  intros Ha%plain_no_amp.
  rewrite (replace_none _ _ _ a) by done.
  rewrite (replace_none _ _ _ a) by done.
  by apply replace_none.
Qed.

Lemma clean_empty : _clean_slack_markup "" = "".
Proof. reflexivity. Qed.

Lemma replace_step h t new r :
  String.prefix (String h t) (String h r) = false →
  replace (String h t) new (String h r) = String h (replace (String h t) new r).
Proof. intros Hp. unfold replace. by rewrite replace_go_0, Hp. Qed.

Lemma replace_other h t new c r :
  c ≠ h →
  replace (String h t) new (String c r) = String c (replace (String h t) new r).
Proof.
  intros Hc. unfold replace. rewrite replace_go_0. simpl.
  destruct (ascii_dec h c) as [->|_]; done.
Qed.

(** A replacement does not change whether the text starts with a word that
    holds neither the first character of [old] nor that of [new]. *)
Lemma prefix_replace_plain w h t nf nt r :
  Forall (fun x => x ≠ h ∧ x ≠ nf) (chars w) →
  String.prefix w (replace (String h t) (String nf nt) r) = String.prefix w r.
Proof.
  revert r. induction w as [|x w IH]; intros r Hw.
  - by destruct r, (replace _ _ _).
  - apply Forall_cons in Hw as [[Hxh Hxn] Hw].
    destruct r as [|c r]; [done|].
    destruct (decide (c = h)) as [->|Hc].
    + unfold replace. rewrite replace_go_0.
      destruct (String.prefix (String h t) (String h r)).
      * rewrite sapp_cons. simpl.
        destruct (ascii_dec x nf), (ascii_dec x h); congruence.
      * simpl. destruct (ascii_dec x h); congruence.
    + rewrite replace_other by done. simpl.
      destruct (ascii_dec x c); [by apply IH|done].
Qed.

Lemma decode_go_skip table x r :
  decode_go table (String.length x) (x +:+ r) = decode_go table 0 r.
Proof. induction x as [|c x IH]; [done|]. by rewrite sapp_cons. Qed.

Lemma decode_at table e c r :
  List.find (fun e' => String.prefix (fst e') (String c r)) table = Some e →
  decode_entities table (String c r)
  = snd e +:+ decode_go table (String.length (fst e) - 1) r.
Proof. intros H. unfold decode_entities. cbn [decode_go]. by rewrite H. Qed.

Lemma decode_other table c r :
  List.find (fun e' => String.prefix (fst e') (String c r)) table = None →
  decode_entities table (String c r) = String c (decode_entities table r).
Proof. intros H. unfold decode_entities. cbn [decode_go]. by rewrite H. Qed.

Lemma prefix_tail h w r :
  String.prefix (String h w) (String h r) = String.prefix w r.
Proof. simpl. destruct (ascii_dec h h); [done|congruence]. Qed.

Lemma prefix_head h w c r :
  c ≠ h → String.prefix (String h w) (String c r) = false.
Proof. intros Hc. simpl. destruct (ascii_dec h c); [congruence|done]. Qed.

(** The three replacements made one after the other decode the text as one
    pass from the left does. *)
Lemma unescape_is_decode (s : string) :
  replace "&amp;" "&" (replace "&gt;" ">" (replace "&lt;" "<" s))
  = decode_entities slack_entities s.
Proof.
  remember (String.length s) as n eqn:Hn.
  assert (Hle : (String.length s ≤ n)%nat) by lia. clear Hn.
  revert s Hle. induction n as [|n IH]; intros s Hle.
  { destruct s; [done|simpl in Hle; lia]. }
  destruct s as [|c s]; [done|]. simpl in Hle.
  destruct (decide (c = "&"%char)) as [->|Hc].
  2:{ rewrite !replace_other by done. rewrite decode_other.
      - f_equal. apply IH. lia.
      - cbn [List.find slack_entities fst]. by rewrite !prefix_head. }
  destruct (String.prefix "lt;" s) eqn:Hlt.
  { destruct (prefix_split _ _ Hlt) as [r ->].
    rewrite slength_app in Hle. simpl in Hle.
    rewrite (decode_at _ ("&lt;", "<"))
      by (cbn [List.find slack_entities fst]; by rewrite prefix_tail, prefix_app).
    cbn [fst snd]. change (String.length "&lt;" - 1)%nat with (String.length "lt;").
    rewrite decode_go_skip.
    change (String "&" ("lt;" +:+ r)) with ("&lt;" +:+ r).
    rewrite replace_at_occurrence.
    rewrite (replace_pass _ _ _ "<") by (repeat constructor; done).
    rewrite (replace_pass _ _ _ "<") by (repeat constructor; done).
    f_equal. apply IH. lia. }
  destruct (String.prefix "gt;" s) eqn:Hgt.
  { destruct (prefix_split _ _ Hgt) as [r ->].
    rewrite slength_app in Hle. simpl in Hle.
    rewrite (decode_at _ ("&gt;", ">"))
      by (cbn [List.find slack_entities fst];
          by rewrite !prefix_tail, Hlt, prefix_app).
    cbn [fst snd]. change (String.length "&gt;" - 1)%nat with (String.length "gt;").
    rewrite decode_go_skip.
    rewrite replace_step by (by rewrite prefix_tail).
    rewrite (replace_pass _ _ _ "gt;") by (repeat constructor; done).
    change (String "&" ("gt;" +:+ replace "&lt;" "<" r))
      with ("&gt;" +:+ replace "&lt;" "<" r).
    rewrite replace_at_occurrence.
    rewrite (replace_pass _ _ _ ">") by (repeat constructor; done).
    f_equal. apply IH. lia. }
  destruct (String.prefix "amp;" s) eqn:Hamp.
  { destruct (prefix_split _ _ Hamp) as [r ->].
    rewrite slength_app in Hle. simpl in Hle.
    rewrite (decode_at _ ("&amp;", "&"))
      by (cbn [List.find slack_entities fst];
          by rewrite !prefix_tail, Hlt, Hgt, prefix_app).
    cbn [fst snd]. change (String.length "&amp;" - 1)%nat with (String.length "amp;").
    rewrite decode_go_skip.
    rewrite replace_step by (by rewrite prefix_tail).
    rewrite (replace_pass _ _ _ "amp;") by (repeat constructor; done).
    rewrite replace_step by (by rewrite prefix_tail).
    rewrite (replace_pass _ _ _ "amp;") by (repeat constructor; done).
    change (String "&" ("amp;" +:+ replace "&gt;" ">" (replace "&lt;" "<" r)))
      with ("&amp;" +:+ replace "&gt;" ">" (replace "&lt;" "<" r)).
    rewrite replace_at_occurrence.
    f_equal. apply IH. lia. }
  rewrite replace_step by (by rewrite prefix_tail).
  rewrite replace_step
    by (rewrite prefix_tail, prefix_replace_plain;
        [done|repeat constructor; done]).
  rewrite replace_step
    by (rewrite prefix_tail, !prefix_replace_plain;
        [done|repeat constructor; done..]).
  rewrite decode_other.
  - f_equal. apply IH. lia.
  - cbn [List.find slack_entities fst]. by rewrite !prefix_tail, Hlt, Hgt, Hamp.
Qed.

Lemma remove_chars_filter cls s :
  remove_chars cls s
  = string_of_list_ascii (List.filter (fun c => negb (cls c)) (chars s)).
Proof.
  induction s as [|c s IH]; [done|]. simpl.
  destruct (cls c); simpl; by rewrite IH.
Qed.

(** C9, as the code has it: for every input the normalizer returns the
    input with the markup characters [*], [_], [~] taken out, then every
    occurrence of the three escapes [&lt;], [&gt;], [&amp;] decoded in one
    pass from the left and nothing else changed, then the white space at both
    ends trimmed.  So the result holds no markup character and neither
    starts nor ends with white space; an escape standing in otherwise plain
    text is decoded, while [&quot;] is left as it is; plain text is only
    trimmed; the empty input gives the empty output.  The function is total
    by construction. *)
Theorem clean_slack_markup_spec (text : string) :
  let out := _clean_slack_markup text in
  Forall (fun c => markup_class c = false) (chars out)
  ∧ trimmed out
  ∧ (text = "" → out = "")
  ∧ (∀ e c a b, In (e, c) slack_entities → plain a = true → plain b = true →
       text = a +:+ e +:+ b → out = strip (a +:+ c +:+ b))
  ∧ (∀ a b, plain a = true → plain b = true →
       text = a +:+ "&quot;" +:+ b → out = strip text)
  ∧ (plain text = true → out = strip text)
  ∧ out = strip (decode_entities slack_entities (without_markup text)).
Proof.
  cbv zeta. unfold _clean_slack_markup. repeat split.
  - apply strip_Forall. do 3 (apply replace_go_Forall; [by repeat constructor|]).
    apply remove_chars_gone.
  - apply strip_trimmed.
  - apply strip_trimmed.
  - by intros ->.
  - intros e c a b Hin Ha Hb ->. f_equal.
    rewrite remove_chars_id; [by apply unescape_between|].
    rewrite !chars_app, !Forall_app. repeat split; try by apply plain_no_markup.
    simpl in Hin. destruct Hin as [[= <- <-]|[[= <- <-]|[[= <- <-]|[]]]];
      repeat constructor.
  - intros a b Ha Hb ->. f_equal.
    rewrite remove_chars_id; [by apply unescape_quot|].
    rewrite !chars_app, !Forall_app. repeat split; try by apply plain_no_markup.
    repeat constructor.
  - intros Hp. f_equal. rewrite remove_chars_id by by apply plain_no_markup.
    by apply unescape_plain.
  - f_equal. rewrite unescape_is_decode. f_equal. apply remove_chars_filter.
Qed.

Lemma clean_slack_markup_spec_witness :
  _clean_slack_markup ("a " +:+ "&lt;" +:+ " b") = strip ("a " +:+ "<" +:+ " b").
Proof.
  destruct (clean_slack_markup_spec ("a " +:+ "&lt;" +:+ " b"))
    as (_ & _ & _ & H & _).
  apply (H "&lt;" "<" "a " " b"); [simpl; auto|reflexivity..].
Defined.

(** C9 as the specification words it: each of the four common entity escapes
    is decoded.  The code never decodes [&quot;]. *)
Lemma clean_four_entities_counterexample :
  ¬ (∀ e c, In (e, c) html4_entities → _clean_slack_markup e = c).
Proof.
  intros H.
  specialize (H "&quot;" (String "034" EmptyString)).
  assert (Hin : In ("&quot;", String "034" EmptyString) html4_entities)
    by (simpl; auto).
  apply H in Hin. vm_compute in Hin. discriminate Hin.
Qed.

End NormalizerSpec.

Example strip_example : strip "  a b  " = "a b".
Proof. reflexivity. Qed.

(** Markup is taken out before the escapes are decoded, and what decoding
    produces is not decoded again. *)
Example clean_mixed_example :
  DataProcessor._clean_slack_markup " *a* &l_t;b &amp;gt; &quot;~ "
  = "a <b &gt; &quot;".
Proof. vm_compute. reflexivity. Qed.

Example strip_wide_example :
  strip (utf8 [194; 160] +:+ " a" +:+ utf8 [226; 128; 137; 10]) = "a".
Proof. vm_compute. reflexivity. Qed.

Example replace_example : replace "&lt;" "<" "a&lt;&lt;b&l" = "a<<b&l".
Proof. reflexivity. Qed.

Example split_example :
  split blank_line ("a" +:+ blank_line +:+ "b" +:+ newline +:+ blank_line)
  = ["a"; "b"; newline].
Proof. vm_compute. reflexivity. Qed.

(** ** The thread flattener *)

Section Flattener.

Import DataProcessor.

Lemma fold_attachments (fs : list file) (parts : list string) :
  fold_left
    (fun parts f =>
       if nonempty (summary f)
       then parts ++ ["Attached file summary: " +:+ summary f]
       else parts) fs parts
  = parts ++ map (fun f => "Attached file summary: " +:+ summary f)
                 (List.filter (fun f => nonempty (summary f)) fs).
Proof.
  revert parts. induction fs as [|f fs IH]; intros parts; simpl.
  - by rewrite app_nil_r.
  - rewrite IH. destruct (nonempty (summary f)); simpl; [|done].
    by rewrite <- app_assoc.
Qed.

Lemma merge_message_section (m : message) : _merge_message m = section_of m.
Proof.
  unfold _merge_message, section_of, attachment_lines.
  rewrite fold_attachments. by destruct (nonempty (text m)).
Qed.

Lemma fold_sections (replies : list message) (sections : list string) :
  fold_left (fun sections reply => sections ++ [_merge_message reply])
            replies sections
  = sections ++ map section_of replies.
Proof.
  revert sections. induction replies as [|r replies IH]; intros sections; simpl.
  - by rewrite app_nil_r.
  - rewrite IH, merge_message_section. by rewrite <- app_assoc.
Qed.

Lemma flatten_fold (messages : list message) (yielded : list (string * string)) :
  fold_left
    (fun yielded msg =>
       let msg_id := timestamp msg in
       if negb (nonempty msg_id) then yielded
       else
         let sections :=
           fold_left (fun sections reply => sections ++ [_merge_message reply])
                     (thread_replies msg) [_merge_message msg] in
         yielded ++ [(msg_id, join blank_line (List.filter nonempty sections))])
    messages yielded
  = yielded ++ flatten_spec messages.
Proof.
  revert yielded. induction messages as [|m ms IH]; intros yielded.
  - simpl. by rewrite app_nil_r.
  - cbn [fold_left]. rewrite IH. unfold flatten_spec. cbn [List.filter].
    destruct (nonempty (timestamp m)); cbn [negb]; [|done].
    cbv zeta. rewrite fold_sections, merge_message_section.
    rewrite <- app_assoc. done.
Qed.

(** C6: the flattener yields, for the messages that have an id and in their
    order, the id with the text made of the root's section and then every
    reply's section in input order; empty sections are left out and the
    others are separated by a blank line; a section is the normalized body
    (present when the message has a body) followed by one
    [Attached file summary: ...] line per non-empty summary, one per line.
    A root with two replies, all three sections non-empty, gives exactly
    three sections, the root's first. *)
Theorem flatten_messages_spec (messages : list message) :
  _flatten_messages messages = flatten_spec messages
  ∧ ∀ root r1 r2,
      In root messages → timestamp root ≠ "" →
      thread_replies root = [r1; r2] →
      section_of root ≠ "" → section_of r1 ≠ "" → section_of r2 ≠ "" →
      In (timestamp root,
          section_of root +:+ blank_line +:+ section_of r1
            +:+ blank_line +:+ section_of r2)
         (_flatten_messages messages).
Proof.
  assert (Heq : _flatten_messages messages = flatten_spec messages).
  { unfold _flatten_messages. by rewrite flatten_fold. }
  split; [done|].
  intros root r1 r2 Hin Hid Hrep H0 H1 H2. rewrite Heq.
  unfold flatten_spec. apply in_map_iff. exists root. split.
  - unfold document_of. f_equal. rewrite Hrep. simpl.
    apply nonempty_true in H0, H1, H2. by rewrite H0, H1, H2.
  - apply filter_In. split; [done|]. by apply nonempty_true.
Qed.

Lemma flatten_messages_spec_witness :
  In ("1",
      ("root & co" +:+ newline +:+ "Attached file summary: plan")
        +:+ blank_line +:+ "first reply"
        +:+ blank_line +:+ ("second reply" +:+ newline +:+ "Attached file summary: notes"))
     (_flatten_messages thread_example).
Proof.
  destruct (flatten_messages_spec thread_example) as [_ H].
  apply (H (Message "1" "*root* &amp; co" [File "plan"; File ""]
              [ Message "1.1" "first _reply_" [] [];
                Message "1.2" "second reply" [File "notes"] [] ])
           (Message "1.1" "first _reply_" [] [])
           (Message "1.2" "second reply" [File "notes"] [])).
  - simpl. auto.
  - discriminate.
  - reflexivity.
  - vm_compute. discriminate.
  - vm_compute. discriminate.
  - vm_compute. discriminate.
Defined.

Example flatten_example :
  _flatten_messages thread_example
  = [ ("1", "root & co" +:+ newline +:+ "Attached file summary: plan"
              +:+ blank_line +:+ "first reply"
              +:+ blank_line +:+ "second reply" +:+ newline
              +:+ "Attached file summary: notes");
      ("2", "alone");
      ("3", "") ].
Proof. vm_compute. reflexivity. Qed.

(** The index chunker hands every document to the splitter and labels each
    piece with the document's id, in order. *)
Lemma chunk_documents_pieces (split_text : string → list string) docs :
  _chunk_documents split_text docs
  = concat (map (fun '(ts, text) =>
                   map (fun c => {| chunk_timestamp := ts; chunk_text := c |})
                       (split_text text)) docs).
Proof.
  unfold _chunk_documents.
  assert (Hin : ∀ ts pieces acc,
            fold_left (fun chunked c =>
                         chunked ++ [{| chunk_timestamp := ts; chunk_text := c |}])
                      pieces acc
            = acc ++ map (fun c => {| chunk_timestamp := ts; chunk_text := c |}) pieces).
  { intros ts pieces. induction pieces as [|c pieces IH]; intros acc; simpl.
    - by rewrite app_nil_r.
    - by rewrite IH, <- app_assoc. }
  assert (Hout : ∀ acc,
            fold_left
              (fun chunked '(ts, text) =>
                 fold_left
                   (fun chunked c =>
                      chunked ++ [{| chunk_timestamp := ts; chunk_text := c |}])
                   (split_text text) chunked) docs acc
            = acc ++ concat (map (fun '(ts, text) =>
                   map (fun c => {| chunk_timestamp := ts; chunk_text := c |})
                       (split_text text)) docs)).
  { induction docs as [|[ts text] docs IH]; intros acc; simpl.
    - by rewrite app_nil_r.
    - by rewrite IH, Hin, <- app_assoc. }
  apply (Hout []).
Qed.

End Flattener.

(** ** The prompt builder *)

Section Prompt.

Import RagQuery.

Lemma imap_labelled (k : nat) (docs : list Document) :
  imap (fun i => labelled (k + i)) docs = context_items (k + 1) docs.
Proof.
  revert k. induction docs as [|d docs IH]; intros k; [done|].
  rewrite imap_cons. simpl. f_equal.
  - unfold labelled. by rewrite Nat.add_0_r.
  - replace (S (k + 1)) with (S k + 1) by lia.
    rewrite <- (IH (S k)). apply imap_ext. intros i x _. simpl.
    f_equal. lia.
Qed.

(** C8, as the code has it: the documents are put, each under its label
    [[Doc n]] with [n] counting from 1, into one block separated by blank
    lines; the user message is
    [Context:\n<block>\n\nQuestion: <query>\n\nAnswer:], with a space after
    [Question:]; it comes second, after the fixed system instruction; the chat
    backend is called with these two messages and the bound on the response
    length, which is 512 tokens in [answer_query]. *)
Theorem build_prompt_spec (query : string) (context_docs : list Document) :
  build_prompt query context_docs
  = [ {| role := "system"; content := SYSTEM_PROMPT |};
      {| role := "user";
         content := code_template (context_block context_docs) query |} ]
  ∧ (∀ (invoke : string → list chat_message → Z → string) model max_tokens,
       generate_answer invoke query context_docs model max_tokens
       = invoke model (build_prompt query context_docs) max_tokens)
  ∧ ∀ (Score : Type) (score_lt : Score → Score → bool)
      predict similarity_search invoke k1 k2 llm_model,
      let '(answer, top_docs) :=
        answer_query score_lt predict similarity_search invoke
                     query k1 k2 llm_model in
      answer = invoke llm_model (build_prompt query top_docs) 512%Z.
Proof.
  split; [|done].
  unfold build_prompt, code_template, context_block.
  rewrite <- (imap_labelled 0). do 3 f_equal.
  by rewrite !sapp_assoc.
Qed.

(** C8 as the specification words it, with a line break after [Question:]:
    already false for the query [q] without any document. *)
Lemma build_prompt_template_counterexample :
  ¬ (∀ query context_docs,
       build_prompt query context_docs
       = [ {| role := "system"; content := SYSTEM_PROMPT |};
           {| role := "user";
              content := spec_template (context_block context_docs) query |} ]).
Proof.
  intros H. specialize (H "q" []). vm_compute in H. discriminate H.
Qed.

Example build_prompt_example :
  map content
      (build_prompt "When?" [Doc "Monday" ∅; Doc "Tuesday" ∅])
  = [ SYSTEM_PROMPT;
      "Context:" +:+ newline
        +:+ "[Doc 1]" +:+ newline +:+ "Monday" +:+ blank_line
        +:+ "[Doc 2]" +:+ newline +:+ "Tuesday" +:+ blank_line
        +:+ "Question: When?" +:+ blank_line +:+ "Answer:" ].
Proof. vm_compute. reflexivity. Qed.

End Prompt.

(** ** The reranker *)

Section Reranker.

Import RagQuery.

Context {Score : Type}.
Variable score_lt : Score → Score → bool.

(** The comparison is a strict weak order, as [<] is on numbers. *)
Hypothesis lt_irrefl : ∀ x, score_lt x x = false.
Hypothesis lt_trans :
  ∀ x y z, score_lt x y = true → score_lt y z = true → score_lt x z = true.
Hypothesis lt_cotrans :
  ∀ x y z, score_lt x z = true → score_lt x y = true ∨ score_lt y z = true.

Lemma lt_asym x y : score_lt x y = true → score_lt y x = false.
Proof.
  intros H. destruct (score_lt y x) eqn:E; [|done].
  pose proof (lt_trans _ _ _ H E) as Hxx. by rewrite lt_irrefl in Hxx.
Qed.

Lemma not_below_trans {A} (x y z : A * Score) :
  not_below score_lt x y → not_below score_lt y z → not_below score_lt x z.
Proof.
  unfold not_below. intros Hxy Hyz.
  destruct (score_lt (snd x) (snd z)) eqn:E; [|done].
  destruct (lt_cotrans _ (snd y) _ E) as [H|H]; congruence.
Qed.

Lemma insert_desc_perm {A} (x : A * Score) l :
  Permutation (insert_desc score_lt x l) (x :: l).
Proof.
  induction l as [|y l IH]; simpl; [done|].
  destruct (score_lt (snd x) (snd y)); [|done].
  rewrite IH. apply perm_swap.
Qed.

Lemma sorted_desc_perm {A} (l : list (A * Score)) :
  Permutation (sorted_desc score_lt l) l.
Proof.
  induction l as [|x l IH]; simpl; [done|].
  rewrite insert_desc_perm. by constructor.
Qed.

Lemma insert_desc_descending {A} (x : A * Score) l :
  descending score_lt l → descending score_lt (insert_desc score_lt x l).
Proof.
  unfold descending. induction 1 as [|y l Hl IH Hy]; simpl.
  - repeat constructor.
  - destruct (score_lt (snd x) (snd y)) eqn:E.
    + constructor; [done|].
      rewrite (insert_desc_perm x l). constructor; [|done].
      by apply lt_asym.
    + constructor; [by constructor|]. constructor; [done|].
      eapply Forall_impl; [exact Hy|]. intros z Hz.
      by apply (not_below_trans x y z).
Qed.

Lemma sorted_desc_descending {A} (l : list (A * Score)) :
  descending score_lt (sorted_desc score_lt l).
Proof.
  induction l as [|x l IH]; simpl; [constructor|].
  by apply insert_desc_descending.
Qed.

Lemma tied_not_lt {A} s (x y : A * Score) :
  tied score_lt s x = true → tied score_lt s y = true →
  score_lt (snd x) (snd y) = false.
Proof.
  unfold tied. intros [Hx1 Hx2]%andb_true_iff [Hy1 Hy2]%andb_true_iff.
  apply negb_true_iff in Hx1, Hx2, Hy1, Hy2.
  destruct (score_lt (snd x) (snd y)) eqn:E; [|done].
  destruct (lt_cotrans _ s _ E); congruence.
Qed.

(** Stability: the elements tied at any score are in their input order. *)
Lemma insert_desc_stable {A} s (x : A * Score) l :
  List.filter (tied score_lt s) (insert_desc score_lt x l)
  = List.filter (tied score_lt s) (x :: l).
Proof.
  induction l as [|y l IH]; [done|].
  cbn [insert_desc]. destruct (score_lt (snd x) (snd y)) eqn:E; [|done].
  cbn [List.filter] in *. rewrite IH.
  destruct (tied score_lt s x) eqn:Hx, (tied score_lt s y) eqn:Hy; try done.
  pose proof (tied_not_lt s x y Hx Hy). congruence.
Qed.

Lemma sorted_desc_stable {A} s (l : list (A * Score)) :
  List.filter (tied score_lt s) (sorted_desc score_lt l)
  = List.filter (tied score_lt s) l.
Proof.
  induction l as [|x l IH]; [done|].
  cbn [sorted_desc foldr]. rewrite insert_desc_stable.
  cbn [List.filter]. fold (sorted_desc score_lt l). by rewrite IH.
Qed.

Lemma slice_to_take {A} (k : Z) (l : list A) :
  ∃ n, slice_to k l = take n l ∧ ((0 ≤ k)%Z → n = Z.to_nat k).
Proof.
  unfold slice_to. destruct (0 <=? k)%Z eqn:E.
  - eauto.
  - eexists. split; [done|]. intros ?. apply Z.leb_gt in E. lia.
Qed.

Lemma descending_app {A} (l1 l2 : list (A * Score)) :
  descending score_lt (l1 ++ l2) →
  descending score_lt l1
  ∧ ∀ x y, In x l1 → In y l2 → score_lt (snd x) (snd y) = false.
Proof.
  unfold descending. induction l1 as [|a l1 IH]; simpl.
  - intros _. split; [constructor|]. intros x y [].
  - intros H. apply StronglySorted_inv in H as [Hs Ha].
    destruct (IH Hs) as [IH1 IH2]. apply Forall_app in Ha as [Ha1 Ha2].
    split; [by constructor|].
    intros x y [<-|Hx] Hy; [|by apply IH2].
    rewrite Forall_forall in Ha2. by apply Ha2, list_elem_of_In.
Qed.

Lemma rerank_is_map (predict : list (string * string) → list Score) query docs k2 :
  rerank score_lt predict query docs k2
  = map fst (rerank_scored score_lt predict query docs k2).
Proof.
  destruct docs as [|d docs]; [|done].
  unfold rerank, rerank_scored. simpl.
  destruct (slice_to_take k2 (@nil (Document * Score))) as (n & -> & _).
  by destruct n.
Qed.

Lemma fst_zip_sublist {A B} (l : list A) (k : list B) :
  sublist (map fst (zip l k)) l.
Proof.
  revert k. induction l as [|a l IH]; intros [|b k]; simpl.
  - constructor.
  - constructor.
  - apply sublist_nil_l.
  - by apply sublist_skip.
Qed.

Section Rerank.

Variable predict : list (string * string) → list Score.
Variable query : string.

Lemma rerank_length docs k2 :
  (0 ≤ k2)%Z →
  (∀ pairs, length (predict pairs) = length pairs) →
  length (rerank score_lt predict query docs k2)
  = Nat.min (Z.to_nat k2) (length docs).
Proof.
  intros Hk Hp. rewrite rerank_is_map, length_map. unfold rerank_scored.
  destruct (slice_to_take k2
              (sorted_desc score_lt
                 (zip docs (predict (map (fun d => (query, page_content d)) docs)))))
    as (n & -> & Hn).
  rewrite (Hn Hk), length_take, (Permutation_length (sorted_desc_perm _)).
  rewrite length_zip_with, Hp, length_map. lia.
Qed.

(** C7: given a non-negative [k2] and a scoring backend that returns one
    score per pair, [rerank] returns the documents of the first [k2] entries
    of the scored candidates put in descending score order: these entries
    together with the ones left out are the scored candidates, they are in
    descending order and none of them scores below one that is left out.
    The output has [min k2 (number of candidates)] elements, so all the
    candidates when there are fewer than [k2]; in [answer_query], after a
    retrieval that returns at most [k1] candidates, the documents used number
    at most [min k1 k2]. *)
Theorem rerank_top_k2 (docs : list Document) (k2 : Z) :
  (0 ≤ k2)%Z →
  (∀ pairs, length (predict pairs) = length pairs) →
  let scored := zip docs (predict (map (fun d => (query, page_content d)) docs)) in
  let top := rerank_scored score_lt predict query docs k2 in
  rerank score_lt predict query docs k2 = map fst top
  ∧ map fst scored = docs
  ∧ (∃ rest, Permutation scored (top ++ rest)
       ∧ ∀ x y, In x top → In y rest → score_lt (snd x) (snd y) = false)
  ∧ descending score_lt top
  ∧ length (rerank score_lt predict query docs k2)
    = Nat.min (Z.to_nat k2) (length docs)
  ∧ ((Z.of_nat (length docs) < k2)%Z →
       length (rerank score_lt predict query docs k2) = length docs)
  ∧ ∀ (similarity_search : string → Z → list Document) invoke llm_model (k1 : Z),
       (Z.of_nat (length (similarity_search query k1)) ≤ k1)%Z →
       (Z.of_nat (length (snd (answer_query score_lt predict similarity_search
                                            invoke query k1 k2 llm_model)))
        ≤ Z.min k1 k2)%Z.
Proof.
  intros Hk Hp scored top.
  pose proof (sorted_desc_descending scored) as Hsorted.
  pose proof (sorted_desc_perm scored) as Hperm.
  assert (Htop : ∃ n, top = take n (sorted_desc score_lt scored)).
  { subst top. unfold rerank_scored. fold scored.
    destruct (slice_to_take k2 (sorted_desc score_lt scored)) as (n & -> & _).
    eauto. }
  destruct Htop as [n Htop].
  rewrite <- (take_drop n (sorted_desc score_lt scored)), <- Htop in Hsorted, Hperm.
  apply descending_app in Hsorted as [Hs1 Hs2].
  repeat split.
  - apply rerank_is_map.
  - subst scored. apply fst_zip. rewrite Hp, length_map. lia.
  - exists (drop n (sorted_desc score_lt scored)). split; [by symmetry|done].
  - done.
  - by apply rerank_length.
  - intros Hlt. rewrite rerank_length by done. lia.
  - intros similarity_search invoke llm_model k1 Hk1.
    unfold answer_query, retrieve. cbn [snd].
    rewrite rerank_length by done. lia.
Qed.

(** C10: whatever the bound and the scores, the output of [rerank] is made
    of input candidates, none more often than in the input, and the scored
    entries it keeps that are tied at a score are the first ones tied at that
    score among the candidates, in the candidates' order. *)
Theorem rerank_sublist_stable (docs : list Document) (k2 : Z) :
  let scored := zip docs (predict (map (fun d => (query, page_content d)) docs)) in
  rerank score_lt predict query docs k2 ⊆+ docs
  ∧ rerank score_lt predict query docs k2
    = map fst (rerank_scored score_lt predict query docs k2)
  ∧ ∀ s, List.filter (tied score_lt s) (rerank_scored score_lt predict query docs k2)
         `prefix_of` List.filter (tied score_lt s) scored.
Proof.
  intros scored.
  assert (Htop : ∃ n, rerank_scored score_lt predict query docs k2
                      = take n (sorted_desc score_lt scored)).
  { unfold rerank_scored. fold scored.
    destruct (slice_to_take k2 (sorted_desc score_lt scored)) as (n & -> & _).
    eauto. }
  destruct Htop as [n Htop]. repeat split.
  - rewrite rerank_is_map, Htop.
    transitivity (map fst scored).
    + transitivity (map fst (sorted_desc score_lt scored)).
      * apply sublist_submseteq. apply (fmap_sublist fst), sublist_take.
      * apply Permutation_submseteq. apply Permutation_map, sorted_desc_perm.
    + apply sublist_submseteq, fst_zip_sublist.
  - apply rerank_is_map.
  - intros s. rewrite Htop, <- (sorted_desc_stable s scored).
    rewrite <- (take_drop n (sorted_desc score_lt scored)) at 2.
    rewrite List.filter_app. by apply prefix_app_r.
Qed.

End Rerank.

End Reranker.

Section RerankerExamples.

Import RagQuery.

Lemma Zltb_irrefl x : (x <? x)%Z = false.
Proof. apply Z.ltb_irrefl. Qed.

Lemma Zltb_trans x y z : (x <? y)%Z = true → (y <? z)%Z = true → (x <? z)%Z = true.
Proof. rewrite !Z.ltb_lt. lia. Qed.

Lemma Zltb_cotrans x y z :
  (x <? z)%Z = true → (x <? y)%Z = true ∨ (y <? z)%Z = true.
Proof. rewrite !Z.ltb_lt. lia. Qed.

Lemma length_score_length pairs : length (length_score pairs) = length pairs.
Proof. apply length_map. Qed.

Example rerank_example :
  rerank Z.ltb length_score "q" candidates_example 3
  = [ Doc "bbbb" ∅; Doc "aa" ∅; Doc "cc" ∅ ].
Proof. vm_compute. reflexivity. Qed.

Lemma rerank_top_k2_witness :
  length (rerank Z.ltb length_score "q" candidates_example 3) = 3%nat
  ∧ length (rerank Z.ltb length_score "q" candidates_example 9) = 4%nat.
Proof.
  split.
  - destruct (rerank_top_k2 Z.ltb Zltb_irrefl Zltb_trans Zltb_cotrans
                length_score "q" candidates_example 3)
      as (_ & _ & _ & _ & H & _); [lia|apply length_score_length|].
    exact H.
  - destruct (rerank_top_k2 Z.ltb Zltb_irrefl Zltb_trans Zltb_cotrans
                length_score "q" candidates_example 9)
      as (_ & _ & _ & _ & _ & H & _); [lia|apply length_score_length|].
    apply H. simpl. lia.
Defined.

Lemma rerank_sublist_stable_witness :
  rerank Z.ltb length_score "q" candidates_example 3 ⊆+ candidates_example
  ∧ List.filter (tied Z.ltb 2%Z)
      (rerank_scored Z.ltb length_score "q" candidates_example 3)
    `prefix_of` [ (Doc "aa" ∅, 2%Z); (Doc "cc" ∅, 2%Z) ].
Proof.
  destruct (rerank_sublist_stable Z.ltb Zltb_cotrans
              length_score "q" candidates_example 3) as (H1 & _ & H2).
  split; [exact H1|]. exact (H2 2%Z).
Defined.

End RerankerExamples.

(** ** Paragraph packing *)

Section PackingFacts.

Import GraphBuilder BatchSpec.

Variable ntokens : string → nat.

Lemma group_tokens_snoc g p :
  group_tokens ntokens (g ++ [p]) = (group_tokens ntokens g + ntokens p)%nat.
Proof. induction g as [|q g IH]; simpl; [lia|]. rewrite IH. lia. Qed.

Lemma glue_snoc g p : glue (g ++ [p]) = glue g +:+ (p +:+ blank_line).
Proof.
  induction g as [|q g IH]; simpl.
  - by rewrite sapp_nil_r.
  - by rewrite IH, !sapp_assoc.
Qed.

Lemma nonempty_app_r a b : nonempty b = true → nonempty (a +:+ b) = true.
Proof. destruct a; [done|]. by rewrite sapp_cons. Qed.

Lemma glue_nonempty g : nonempty (glue g) = match g with [] => false | _ => true end.
Proof.
  destruct g as [|p g]; [done|]. simpl. rewrite sapp_assoc.
  apply nonempty_app_r. done.
Qed.

Lemma flush_closed msg_id cur (documents : list Document) :
  (if nonempty (glue cur)
   then documents ++ [id_document msg_id (strip (glue cur))]
   else documents)
  = documents ++ map (render msg_id) (closed cur).
Proof.
  rewrite glue_nonempty. destruct cur; simpl; [by rewrite app_nil_r|done].
Qed.

(** The inner loop computes the greedy packing. *)
Lemma pack_fold msg_id paras cur documents :
  (let '(current_chunk, _, documents') :=
     fold_left (pack_step ntokens msg_id) paras
               (glue cur, group_tokens ntokens cur, documents) in
   if nonempty current_chunk
   then documents' ++ [id_document msg_id (strip current_chunk)]
   else documents')
  = documents
      ++ map (render msg_id) (pack_groups ntokens cur (group_tokens ntokens cur) paras).
Proof.
  revert cur documents. induction paras as [|p paras IH]; intros cur documents.
  - cbn [fold_left pack_groups]. apply flush_closed.
  - cbn [fold_left pack_groups]. unfold pack_step at 2.
    destruct (group_tokens ntokens cur + ntokens p <? token_limit)%nat eqn:E.
    + rewrite <- glue_snoc, <- group_tokens_snoc. apply IH.
    + rewrite flush_closed.
      replace (p +:+ blank_line) with (glue [p]) by (simpl; apply sapp_nil_r).
      replace (ntokens p) with (group_tokens ntokens [p]) at 1 2 by (simpl; lia).
      rewrite IH, map_app, app_assoc. simpl. by rewrite Nat.add_0_r.
Qed.

Lemma Forall_closed (P : list string → Prop) cur :
  (cur ≠ [] → P cur) → Forall P (closed cur).
Proof. destruct cur; intros H; constructor; [by apply H|constructor]. Qed.

Lemma concat_closed cur : concat (closed cur) = cur.
Proof. destruct cur; simpl; by rewrite ?app_nil_r. Qed.

Lemma pack_groups_concat cur t paras :
  concat (pack_groups ntokens cur t paras) = cur ++ paras.
Proof.
  revert cur t. induction paras as [|p paras IH]; intros cur t; simpl.
  - by rewrite concat_closed, app_nil_r.
  - destruct (t + ntokens p <? token_limit)%nat.
    + rewrite IH. by rewrite <- app_assoc.
    + by rewrite concat_app, IH, concat_closed.
Qed.

Lemma pack_groups_nonempty cur t paras :
  Forall (fun g => g ≠ []) (pack_groups ntokens cur t paras).
Proof.
  revert cur t. induction paras as [|p paras IH]; intros cur t; simpl.
  - by apply Forall_closed.
  - destruct (t + ntokens p <? token_limit)%nat; [apply IH|].
    apply Forall_app. split; [by apply Forall_closed|apply IH].
Qed.

Lemma pack_groups_budget cur paras :
  cur = [] ∨ within_budget ntokens cur →
  Forall (within_budget ntokens)
         (pack_groups ntokens cur (group_tokens ntokens cur) paras).
Proof.
  revert cur. induction paras as [|p paras IH]; intros cur Hcur; simpl.
  - apply Forall_closed. by destruct Hcur.
  - destruct (group_tokens ntokens cur + ntokens p <? token_limit)%nat eqn:E.
    + rewrite <- group_tokens_snoc. apply IH. right. right.
      rewrite group_tokens_snoc. by apply Nat.ltb_lt.
    + apply Forall_app. split.
      * apply Forall_closed. by destruct Hcur.
      * replace (ntokens p) with (group_tokens ntokens [p]) by (simpl; lia).
        apply IH. right. by left.
Qed.

Lemma pack_groups_head cur t paras :
  cur ≠ [] → ∃ g rest, pack_groups ntokens cur t paras = (cur ++ g) :: rest.
Proof.
  revert cur t. induction paras as [|p paras IH]; intros cur t Hcur; simpl.
  - destruct cur; [done|]. exists [], []. by rewrite app_nil_r.
  - destruct (t + ntokens p <? token_limit)%nat.
    + destruct (IH (cur ++ [p]) (t + ntokens p)%nat) as (g & rest & ->).
      { by destruct cur. }
      exists (p :: g), rest. by rewrite <- app_assoc.
    + destruct cur; [done|]. simpl. eexists [], _. by rewrite app_nil_r.
Qed.

(** Between two consecutive groups the loop flushed: the count of the first
    plus the first paragraph of the second reaches the limit. *)
Lemma pack_groups_flush cur paras i g g' p :
  pack_groups ntokens cur (group_tokens ntokens cur) paras !! i = Some g →
  pack_groups ntokens cur (group_tokens ntokens cur) paras !! S i = Some g' →
  head g' = Some p →
  (token_limit ≤ group_tokens ntokens g + ntokens p)%nat.
Proof.
  revert cur i. induction paras as [|q paras IH]; intros cur i; simpl.
  - destruct cur; simpl; [done|]. by destruct i.
  - destruct (group_tokens ntokens cur + ntokens q <? token_limit)%nat eqn:E.
    + rewrite <- group_tokens_snoc. apply IH.
    + replace (ntokens q) with (group_tokens ntokens [q]) at 1 2 by (simpl; lia).
      destruct cur as [|c cur]; cbn [closed app]; [apply IH|].
      destruct i as [|i]; [|apply (IH [q] i)].
      destruct (pack_groups_head [q] (group_tokens ntokens [q]) paras)
        as (g0 & rest & ->); [done|].
      cbn [lookup list_lookup app]. intros [= <-] [= <-] [= <-].
      by apply Nat.ltb_ge in E.
Qed.

Lemma split_go_not_nil sep k cur s : split_go sep k cur s ≠ [].
Proof.
  revert k cur. induction s as [|c s IH]; intros k cur; [done|].
  destruct k; [|apply IH]. cbn [split_go].
  destruct (String.prefix sep (String c s)); [done|apply IH].
Qed.

Lemma split_documents_over msg_id content :
  (token_limit < ntokens content)%nat →
  split_documents ntokens msg_id content
  = map (render msg_id)
        (pack_groups ntokens [] 0 (split blank_line content)).
Proof.
  intros H. unfold split_documents. apply Nat.ltb_lt in H. rewrite H.
  apply (pack_fold msg_id (split blank_line content) [] []).
Qed.

Lemma split_documents_not_nil msg_id content :
  split_documents ntokens msg_id content ≠ [].
Proof.
  destruct (token_limit <? ntokens content)%nat eqn:E.
  - rewrite split_documents_over by by apply Nat.ltb_lt.
    intros H%map_eq_nil.
    pose proof (pack_groups_concat [] 0 (split blank_line content)) as Hc.
    rewrite H in Hc. simpl in Hc. symmetry in Hc.
    by apply split_go_not_nil in Hc.
  - unfold split_documents. by rewrite E.
Qed.

End PackingFacts.

(** ** The batch loop *)

Section LoopFacts.

Import GraphBuilder BatchSpec.

Context {GraphDocument Backend : Type}.
Variable ntokens : string → nat.
Variable convert_to_graph_documents :
  Backend → Document → Backend * (string + list GraphDocument).
Variable add_graph_documents :
  Backend → list GraphDocument → Backend * option string.

Local Abbreviation process_message :=
  (process_message ntokens convert_to_graph_documents add_graph_documents).
Local Abbreviation run := (run ntokens convert_to_graph_documents add_graph_documents).
Local Abbreviation batch := (batch ntokens convert_to_graph_documents add_graph_documents).
Local Abbreviation unit_of_work :=
  (unit_of_work convert_to_graph_documents add_graph_documents).
Local Abbreviation convert_all := (convert_all convert_to_graph_documents).
Local Abbreviation trace := (list (@event GraphDocument)).
Local Abbreviation iteration := (@iteration GraphDocument Backend ntokens).
Local Abbreviation execution := (@execution GraphDocument Backend ntokens).

Lemma convert_all_shape be msg_id documents graph_docs be' evs r :
  convert_all be msg_id documents graph_docs = (be', evs, r) →
  Forall (call_for msg_id) evs
  ∧ (∀ d ds, documents = d :: ds → In (EConvert msg_id d) evs)
  ∧ (∀ gds, r = inr gds → evs = map (EConvert msg_id) documents).
Proof.
  revert be graph_docs be' evs r.
  induction documents as [|d ds IH]; intros be graph_docs be' evs r; simpl.
  - intros [= <- <- <-]. repeat split; [constructor|done..].
  - destruct (convert_to_graph_documents be d) as [be1 [err|res]].
    + intros [= <- <- <-]. repeat split.
      * by repeat constructor.
      * intros ? ? [= <- <-]. by left.
      * done.
    + destruct (convert_all be1 msg_id ds (graph_docs ++ res))
        as [[be2 evs2] r2] eqn:E.
      intros [= <- <- <-]. destruct (IH _ _ _ _ _ E) as (H1 & H2 & H3).
      repeat split.
      * by constructor.
      * intros ? ? [= <- <-]. by left.
      * intros gds ->. simpl. f_equal. by apply (H3 gds).
Qed.

Lemma unit_of_work_shape be msg_id documents be' evs r :
  unit_of_work be msg_id documents = (be', evs, r) →
  Forall (call_for msg_id) evs
  ∧ (∀ d ds, documents = d :: ds → In (EConvert msg_id d) evs)
  ∧ (r = None →
     ∃ gds, evs = map (EConvert msg_id) documents ++ [EAddGraph msg_id gds]).
Proof.
  unfold unit_of_work.
  destruct (convert_all be msg_id documents []) as [[be1 evs1] r1] eqn:E.
  destruct (convert_all_shape _ _ _ _ _ _ _ E) as (H1 & H2 & H3).
  destruct r1 as [err|gds].
  - intros [= <- <- <-]. repeat split; [done..|]. done.
  - destruct (add_graph_documents be1 gds) as [be2 r2].
    intros [= <- <- <-]. repeat split.
    + apply Forall_app. split; [done|]. by repeat constructor.
    + intros d ds Hd. apply in_or_app. left. by apply (H2 d ds).
    + intros _. exists gds. by rewrite (H3 gds).
Qed.

Lemma process_message_iteration st msg :
  let '(st', tr, raised) := process_message st msg in
  iteration st msg st' tr raised.
Proof.
  unfold GraphBuilder.process_message.
  destruct (nonempty (timestamp msg)) eqn:Hid; cbn [negb].
  2:{ apply it_skip. left. by destruct (timestamp msg). }
  apply nonempty_true in Hid.
  destruct (is_done (checkpoint st !! timestamp msg)) eqn:Hdone.
  { apply it_skip. by right. }
  cbn.
  destruct (append_replies _ _) as [e|[content|]].
  - by apply it_abort.
  - destruct (unit_of_work _ _ _) as [[be evs2] r] eqn:E.
    destruct (unit_of_work_shape _ _ _ _ _ _ E) as (H1 & H2 & H3).
    destruct (split_documents ntokens (timestamp msg) content) as [|d ds] eqn:Hd.
    { by apply split_documents_not_nil in Hd. }
    destruct r as [err_msg|]; cbn.
    + eapply it_processed with (content := content) (entry := Error err_msg);
        eauto.
    + eapply it_processed with (content := content) (entry := Done done_result);
        eauto.
      left. split; [done|]. rewrite Hd. by apply H3.
  - by apply it_abort.
Qed.

Lemma run_execution st messages :
  let '(st', tr, out) := run st messages in
  execution st messages st' tr out.
Proof.
  revert st. induction messages as [|msg messages IH]; intros st; simpl.
  - constructor.
  - pose proof (process_message_iteration st msg) as Hit.
    destruct (process_message st msg) as [[st1 tr1] [e|]].
    + by constructor.
    + specialize (IH st1). destruct (run st1 messages) as [[st2 tr2] out].
      by econstructor.
Qed.

Lemma process_message_skip st msg :
  timestamp msg = "" ∨ is_done (checkpoint st !! timestamp msg) = true →
  process_message st msg = (st, [], None).
Proof.
  unfold GraphBuilder.process_message. intros [->| ->]; [done|].
  by destruct (negb (nonempty (timestamp msg))).
Qed.

(** *** Done items are left alone *)

Lemma lookup_done_other (c : gmap string CheckpointEntry) i j r :
  c !! j = Some (Done r) → is_done (c !! i) = false → i ≠ j.
Proof. intros Hj Hi ->. by rewrite Hj in Hi. Qed.

Lemma iteration_keeps_done st msg st' tr raised i r :
  iteration st msg st' tr raised →
  checkpoint st !! i = Some (Done r) →
  Forall (fun ev => call_of ev ≠ Some i) tr
  ∧ checkpoint st' !! i = Some (Done r).
Proof.
  intros Hit Hi. destruct Hit as [ |st' e Hid Hnd Hck Hf
                                   |st' content cs entry Hid Hnd Hck Hf Hc Hcs _ _].
  - by split.
  - pose proof (lookup_done_other _ _ _ _ Hi Hnd) as Hne. split.
    + repeat constructor; done.
    + by rewrite Hck, lookup_insert_ne.
  - pose proof (lookup_done_other _ _ _ _ Hi Hnd) as Hne. split.
    + repeat (constructor; [done|]). apply Forall_app. split.
      * eapply Forall_impl; [exact Hcs|]. unfold call_for. intros ev -> [=]. done.
      * repeat constructor; done.
    + by rewrite Hck, !lookup_insert_ne.
Qed.

Lemma execution_keeps_done st messages st' tr out i r :
  execution st messages st' tr out →
  checkpoint st !! i = Some (Done r) →
  Forall (fun ev => call_of ev ≠ Some i) tr
  ∧ checkpoint st' !! i = Some (Done r).
Proof.
  induction 1 as [st|st msg messages st' tr e Hit
                  |st msg messages st1 tr1 st2 tr2 out Hit Hex IH]; intros Hi.
  - by split.
  - by eapply iteration_keeps_done.
  - destruct (iteration_keeps_done _ _ _ _ _ _ _ Hit Hi) as [H1 H2].
    destruct (IH H2) as [H3 H4]. split; [|done]. by apply Forall_app.
Qed.

(** *** Items that are not done are attempted *)

Lemma in_middle {A} (x : A) pre mid post : In x mid → In x (pre ++ mid ++ post).
Proof. intros H. apply in_or_app. right. apply in_or_app. by left. Qed.

Lemma iteration_attempts st msg st' tr :
  iteration st msg st' tr None →
  timestamp msg ≠ "" → is_done (checkpoint st !! timestamp msg) = false →
  ∃ d, In (EConvert (timestamp msg) d) tr.
Proof.
  intros Hit Hid Hnd. inversion Hit as [[?|?]| |? ? cs ? _ _ _ _ _ _ [d Hd] _];
    subst; try congruence.
  exists d. by apply in_middle.
Qed.

Lemma iteration_becomes_done st msg st' tr i :
  iteration st msg st' tr None →
  is_done (checkpoint st !! i) = false →
  is_done (checkpoint st' !! i) = true →
  ∃ d, In (EConvert i d) tr.
Proof.
  intros Hit Hnd Hd.
  inversion Hit as [ | |? ? cs ? Hid _ Hck _ _ _ [d Hin] _]; subst; [congruence|].
  destruct (decide (timestamp msg = i)) as [<-|Hne].
  - exists d. by apply in_middle.
  - rewrite Hck, !lookup_insert_ne in Hd by done. congruence.
Qed.

Lemma execution_attempts st messages st' tr m :
  execution st messages st' tr Completed →
  In m messages → timestamp m ≠ "" →
  is_done (checkpoint st !! timestamp m) = false →
  ∃ d, In (EConvert (timestamp m) d) tr.
Proof.
  intros Hex. remember Completed as out eqn:Hout. revert Hout.
  induction Hex as [st|st msg messages st' tr e Hit
                    |st msg messages st1 tr1 st2 tr2 out Hit Hex IH];
    intros Hout Hin Hid Hnd; [done|done|].
  destruct (is_done (checkpoint st1 !! timestamp m)) eqn:Hd1.
  - destruct (iteration_becomes_done _ _ _ _ _ Hit Hnd Hd1) as [d Hd].
    exists d. apply in_or_app. by left.
  - destruct Hin as [->|Hin].
    + destruct (iteration_attempts _ _ _ _ Hit Hid Hnd) as [d Hd].
      exists d. apply in_or_app. by left.
    + destruct (IH Hout Hin Hid eq_refl) as [d Hd].
      exists d. apply in_or_app. by right.
Qed.

Lemma run_all_done st messages :
  (∀ m, In m messages → timestamp m ≠ "" →
        is_done (checkpoint st !! timestamp m) = true) →
  run st messages = (st, [], Completed).
Proof.
  induction messages as [|msg messages IH]; intros H; simpl; [done|].
  rewrite process_message_skip.
  - rewrite IH; [done|]. intros m Hm. apply H. by right.
  - destruct (decide (timestamp msg = "")) as [?|Hne]; [by left|right].
    apply H; [by left|done].
Qed.

Lemma iteration_file_current st msg st' tr raised :
  iteration st msg st' tr raised →
  load (ckpt_file st) = checkpoint st → load (ckpt_file st') = checkpoint st'.
Proof.
  intros Hit H.
  destruct Hit as [ |st' e _ _ _ Hf|st' content cs entry _ _ _ Hf _ _ _ _];
    [done|by rewrite Hf..].
Qed.

Lemma execution_file_current st messages st' tr out :
  execution st messages st' tr out →
  load (ckpt_file st) = checkpoint st → load (ckpt_file st') = checkpoint st'.
Proof.
  induction 1 as [st|st msg messages st' tr e Hit
                  |st msg messages st1 tr1 st2 tr2 out Hit Hex IH]; intros H.
  - done.
  - by eapply iteration_file_current.
  - apply IH. by eapply iteration_file_current.
Qed.

(** *** The write discipline *)

Lemma replay_app (c : gmap string CheckpointEntry) (t1 t2 : trace) :
  replay c (t1 ++ t2) = replay (replay c t1) t2.
Proof. apply fold_left_app. Qed.

Lemma file_after_app f (t1 t2 : trace) :
  file_after f (t1 ++ t2) = file_after (file_after f t1) t2.
Proof. apply fold_left_app. Qed.

Lemma disciplined_app c f d (t1 t2 : trace) :
  disciplined c f d t1 →
  disciplined (replay c t1) (file_after f t1) false t2 →
  disciplined c f d (t1 ++ t2).
Proof.
  revert c f d. induction t1 as [|ev t1 IH]; intros c f d H1 H2.
  - simpl in H1. by subst d.
  - destruct ev as [i e|c'|i doc|i gds]; simpl in H1 |- *.
    + destruct H1 as [Hd H1]. split; [done|]. by apply IH.
    + destruct H1 as (Hd & -> & H1). repeat split; [done|]. by apply IH.
    + destruct H1 as (Hd & Hf & Hi & H1). repeat split; [done..|]. by apply IH.
    + destruct H1 as (Hd & Hf & Hi & H1). repeat split; [done..|]. by apply IH.
Qed.

Lemma disciplined_calls c i (cs : trace) :
  c !! i = Some Pending → Forall (call_for i) cs →
  ∀ t, disciplined c (Some c) false t → disciplined c (Some c) false (cs ++ t).
Proof.
  intros Hi Hcs t Ht. induction Hcs as [|ev cs Hev _ IH]; [done|].
  destruct ev as [| |j doc|j gds]; try discriminate Hev.
  - simpl. repeat split; [|done]. injection Hev as ->. by exists i.
  - simpl. repeat split; [|done]. injection Hev as ->. by exists i.
Qed.

Lemma replay_calls c i (cs : trace) : Forall (call_for i) cs → replay c cs = c.
Proof.
  induction 1 as [|ev cs Hev _ IH]; [done|].
  destruct ev; try discriminate Hev; exact IH.
Qed.

Lemma file_after_calls f i (cs : trace) :
  Forall (call_for i) cs → file_after f cs = f.
Proof.
  induction 1 as [|ev cs Hev _ IH]; [done|].
  destruct ev; try discriminate Hev; exact IH.
Qed.

Lemma iteration_disciplined st msg st' tr raised :
  iteration st msg st' tr raised →
  disciplined (checkpoint st) (ckpt_file st) false tr
  ∧ checkpoint st' = replay (checkpoint st) tr
  ∧ ckpt_file st' = file_after (ckpt_file st) tr.
Proof.
  intros Hit.
  destruct Hit as [ |st' e Hid Hnd Hck Hf
                   |st' content cs entry Hid Hnd Hck Hf Hc Hcs _ _].
  - done.
  - rewrite Hf, Hck. simpl. done.
  - repeat split.
    + simpl. repeat split.
      apply disciplined_calls with (i := timestamp msg); [|done|].
      * by rewrite lookup_insert_eq.
      * simpl. by rewrite Hck.
    + rewrite replay_app, replay_app, (replay_calls _ _ _ Hcs). by rewrite Hck.
    + rewrite file_after_app, file_after_app, (file_after_calls _ _ _ Hcs).
      by rewrite Hf.
Qed.

Lemma execution_disciplined st messages st' tr out :
  execution st messages st' tr out →
  disciplined (checkpoint st) (ckpt_file st) false tr
  ∧ checkpoint st' = replay (checkpoint st) tr
  ∧ ckpt_file st' = file_after (ckpt_file st) tr.
Proof.
  induction 1 as [st|st msg messages st' tr e Hit
                  |st msg messages st1 tr1 st2 tr2 out Hit Hex IH].
  - done.
  - by eapply iteration_disciplined.
  - destruct (iteration_disciplined _ _ _ _ _ Hit) as (H1 & H2 & H3).
    destruct IH as (H4 & H5 & H6). rewrite H2, H3 in H4.
    repeat split.
    + by apply disciplined_app.
    + by rewrite replay_app, <- H2.
    + by rewrite file_after_app, <- H3.
Qed.

Lemma disciplined_set_dumped c f d (pre : trace) i e post :
  disciplined c f d (pre ++ ESet i e :: post) →
  ∃ post', post = EDump (replay c (pre ++ [ESet i e])) :: post'.
Proof.
  revert c f d. induction pre as [|ev pre IH]; intros c f d H.
  - simpl in H. destruct H as [_ H]. destruct post as [|[| | |] post]; simpl in H.
    + done.
    + by destruct H.
    + destruct H as (_ & -> & _). by eexists.
    + by destruct H.
    + by destruct H.
  - destruct ev as [j e'|c'|j doc|j gds]; simpl in H.
    + destruct H as [_ H]. by apply IH in H.
    + destruct H as (_ & -> & H). by apply IH in H.
    + destruct H as (_ & _ & _ & H). by apply IH in H.
    + destruct H as (_ & _ & _ & H). by apply IH in H.
Qed.

Lemma disciplined_call_pending c f d (pre : trace) ev post i :
  disciplined c f d (pre ++ ev :: post) → call_of ev = Some i →
  file_after f pre = Some (replay c pre) ∧ replay c pre !! i = Some Pending.
Proof.
  revert c f d. induction pre as [|x pre IH]; intros c f d H Hev.
  - destruct ev as [| |j doc|j gds]; try discriminate Hev; simpl in H, Hev.
    + destruct H as (_ & -> & (k & [= <-] & Hk) & _). by injection Hev as <-.
    + destruct H as (_ & -> & (k & [= <-] & Hk) & _). by injection Hev as <-.
  - destruct x as [j e'|c'|j doc|j gds]; simpl in H.
    + destruct H as [_ H]. by apply (IH _ _ _ H).
    + destruct H as (_ & -> & H). by apply (IH _ _ _ H).
    + destruct H as (_ & _ & _ & H). by apply (IH _ _ _ H).
    + destruct H as (_ & _ & _ & H). by apply (IH _ _ _ H).
Qed.

(** C2: along a run of the batch loop every assignment to the ledger is
    followed at once by a dump of the whole ledger as it then is; when a
    backend call is made for an item, the file holds exactly the ledger in
    memory and records that item as pending; at the end of the run (whether
    it went through the list or was aborted) the ledger in memory is the
    result of the assignments, the file is the last dump, and the file and
    the ledger agree. *)
Theorem ledger_dumped_at_every_transition
    (file : option (gmap string CheckpointEntry)) (be : Backend)
    (messages : list message) :
  let '(st', tr, out) := batch file be messages in
  (∀ pre i e post, tr = pre ++ ESet i e :: post →
     ∃ post', post = EDump (replay (load file) (pre ++ [ESet i e])) :: post')
  ∧ (∀ pre ev post i, tr = pre ++ ev :: post → call_of ev = Some i →
       file_after file pre = Some (replay (load file) pre)
       ∧ replay (load file) pre !! i = Some Pending)
  ∧ checkpoint st' = replay (load file) tr
  ∧ ckpt_file st' = file_after file tr
  ∧ load (ckpt_file st') = checkpoint st'.
Proof.
  unfold GraphBuilder.batch.
  pose proof (run_execution (initial_state file be) messages) as Hex.
  destruct (run (initial_state file be) messages) as [[st' tr] out].
  destruct (execution_disciplined _ _ _ _ _ Hex) as (Hd & Hc & Hf).
  cbn in Hd, Hc, Hf. repeat split.
  - intros pre i e post ->. by eapply disciplined_set_dumped.
  - subst tr. by eapply disciplined_call_pending.
  - subst tr. by eapply disciplined_call_pending.
  - done.
  - done.
  - by apply (execution_file_current _ _ _ _ _ Hex).
Qed.

Lemma iteration_done_submitted st msg st' tr raised :
  iteration st msg st' tr raised →
  timestamp msg ≠ "" →
  is_done (checkpoint st !! timestamp msg) = false →
  is_done (checkpoint st' !! timestamp msg) = true →
  ∃ content gds,
    slack_content st' = Some content
    ∧ tr = [ESet (timestamp msg) Pending;
            EDump (<[timestamp msg := Pending]> (checkpoint st))]
           ++ map (EConvert (timestamp msg))
                  (split_documents ntokens (timestamp msg) content)
           ++ [EAddGraph (timestamp msg) gds;
               ESet (timestamp msg) (Done done_result);
               EDump (checkpoint st')].
Proof.
  intros Hit Hid Hnd Hd.
  destruct Hit as [ |st' e _ _ Hck Hf
                   |st' content cs entry _ _ Hck Hf Hc Hcs _ Hentry].
  - congruence.
  - by rewrite Hck, lookup_insert_eq in Hd.
  - rewrite Hck, lookup_insert_eq in Hd.
    destruct Hentry as [[-> [gds ->]]|[err_msg ->]]; [|done].
    exists content, gds. split; [done|].
    by rewrite <- !app_assoc.
Qed.

(** C4, as the code has it: content above the token limit is split on the
    paragraph delimiter and the paragraphs are packed, in order, into groups;
    every sub-unit is the trimmed text of one group; a group of two or more
    paragraphs has paragraph token counts that sum to less than the limit,
    while a single paragraph forms a group whatever its size; between two
    consecutive groups the count of the first plus that of the first
    paragraph of the second reaches the limit (the flush happens when the sum
    is at or above the limit).  In an iteration that ends with the item
    done, every sub-unit was submitted to the extraction backend, in order,
    before the insertion and before the item was marked done. *)
Theorem paragraph_packing_spec :
  (∀ msg_id content,
     (token_limit < ntokens content)%nat →
     ∃ groups : list (list string),
       concat groups = split blank_line content
       ∧ Forall (fun g => g ≠ []) groups
       ∧ split_documents ntokens msg_id content = map (render msg_id) groups
       ∧ Forall (within_budget ntokens) groups
       ∧ ∀ i g g' p,
           groups !! i = Some g → groups !! S i = Some g' → head g' = Some p →
           (token_limit ≤ group_tokens ntokens g + ntokens p)%nat)
  ∧ (∀ st msg,
       let '(st', tr, raised) := process_message st msg in
       timestamp msg ≠ "" →
       is_done (checkpoint st !! timestamp msg) = false →
       is_done (checkpoint st' !! timestamp msg) = true →
       ∃ content gds,
         slack_content st' = Some content
         ∧ tr = [ESet (timestamp msg) Pending;
                 EDump (<[timestamp msg := Pending]> (checkpoint st))]
                ++ map (EConvert (timestamp msg))
                       (split_documents ntokens (timestamp msg) content)
                ++ [EAddGraph (timestamp msg) gds;
                    ESet (timestamp msg) (Done done_result);
                    EDump (checkpoint st')]).
Proof.
  split.
  - intros msg_id content Hover.
    exists (pack_groups ntokens [] 0 (split blank_line content)).
    repeat split.
    + apply pack_groups_concat.
    + apply pack_groups_nonempty.
    + by apply split_documents_over.
    + apply (pack_groups_budget ntokens []). by left.
    + apply (pack_groups_flush ntokens []).
  - intros st msg. pose proof (process_message_iteration st msg) as Hit.
    destruct (process_message st msg) as [[st' tr] raised].
    by apply (iteration_done_submitted st msg st' tr raised).
Qed.

(** C3, where the code departs from it: a first record that has an id and
    no body makes the loop read [slack_content] before it was ever assigned;
    the exception is raised outside the [try], so the run ends there, with
    the item left pending and the next record never looked at.  This holds
    whatever the tokenizer and the backends do. *)
Theorem unbound_content_aborts_batch (be : Backend) :
  let '(st', tr, out) := batch None be bodyless_first in
  out = Aborted (NameError "slack_content")
  ∧ tr = [ESet "1" Pending; EDump {[ "1" := Pending ]}]
  ∧ checkpoint st' !! "1" = Some Pending
  ∧ checkpoint st' !! "2" = None
  ∧ ckpt_file st' = Some {[ "1" := Pending ]}.
Proof. cbn. repeat split. Qed.

End LoopFacts.

(** ** The batch loop on sample inputs *)

Section LoopExamples.

Import GraphBuilder BatchSpec.

Local Abbreviation sample_batch := (batch word_count echo_convert accept_add).

Example small_batch_ledger :
  let '(st', tr, out) := sample_batch None 0%nat small_batch in
  out = Completed
  ∧ checkpoint st' !! "1" = Some (Done done_result)
  ∧ checkpoint st' !! "2" = Some (Error "extraction failed")
  ∧ checkpoint st' !! "3" = Some (Error "extraction failed")
  ∧ calls tr
    = [ EConvert "1" (id_document "1" ("hello" +:+ blank_line +:+ "world"));
        EAddGraph "1" ["hello" +:+ blank_line +:+ "world"];
        EConvert "2" (id_document "2" "boom");
        EConvert "3" (id_document "3" "boom") ].
Proof. vm_compute. repeat split. Qed.

Example two_paragraphs_split :
  map (fun d => word_count (page_content d))
      (split_documents word_count "7" two_paragraphs)
  = [2000%nat; 1500%nat].
Proof. vm_compute. reflexivity. Qed.

Lemma ledger_dumped_at_every_transition_witness :
  let '(st', tr, _) := sample_batch None 0%nat small_batch in
  load (ckpt_file st') = checkpoint st'
  ∧ ∀ pre ev post,
      tr = pre ++ ev :: post → call_of ev = Some "2" →
      file_after None pre = Some (replay ∅ pre)
      ∧ replay ∅ pre !! "2" = Some Pending.
Proof.
  pose proof (ledger_dumped_at_every_transition word_count echo_convert
                accept_add None 0%nat small_batch) as H.
  destruct (sample_batch None 0%nat small_batch) as [[st' tr] out].
  destruct H as (_ & H2 & _ & _ & H5). split; [exact H5|].
  intros pre ev post Htr Hev. exact (H2 pre ev post "2" Htr Hev).
Defined.

Lemma paragraph_packing_spec_witness :
  ∃ groups : list (list string),
    concat groups = split blank_line two_paragraphs
    ∧ split_documents word_count "7" two_paragraphs = map (render "7") groups
    ∧ Forall (within_budget word_count) groups.
Proof.
  destruct (paragraph_packing_spec word_count echo_convert accept_add) as [H _].
  destruct (H "7" two_paragraphs) as (groups & H1 & _ & H3 & H4 & _).
  - apply Nat.ltb_lt. vm_compute. reflexivity.
  - exists groups. repeat split; assumption.
Defined.

(** C4 as the specification words it: every sub-unit is within the token
    limit.  A text of 3001 words without a paragraph break comes out as one
    sub-unit of 3001 tokens. *)
Lemma oversized_paragraph_counterexample :
  ¬ (∀ (ntokens : string → nat) msg_id content,
       (token_limit < ntokens content)%nat →
       Forall (fun d => (ntokens (page_content d) ≤ token_limit)%nat)
              (split_documents ntokens msg_id content)).
Proof.
  intros H. specialize (H word_count "1" long_paragraph).
  assert (Hover : (token_limit < word_count long_paragraph)%nat).
  { apply Nat.ltb_lt. vm_compute. reflexivity. }
  apply H in Hover.
  assert (Hdocs : split_documents word_count "1" long_paragraph
                  = [id_document "1" long_paragraph]).
  { vm_compute. reflexivity. }
  rewrite Hdocs in Hover. apply Forall_inv in Hover.
  apply Nat.leb_le in Hover. vm_compute in Hover. discriminate Hover.
Qed.

End LoopExamples.

(** * Further properties of the scripts *)

(** ** Message text in the two ingestion scripts *)

Section MessageText.

Import DataProcessor GraphBuilder.

Lemma replace_char_removes (c : ascii) (s : string) :
  replace (String c EmptyString) EmptyString s = remove_chars (Ascii.eqb c) s.
Proof.
  unfold replace. induction s as [|x s IH]; [done|].
  rewrite replace_go_0. cbn [String.prefix remove_chars].
  destruct (ascii_dec c x) as [->|Hne].
  - rewrite Ascii.eqb_refl. destruct s; exact IH.
  - apply Ascii.eqb_neq in Hne. rewrite Hne. by rewrite IH.
Qed.

Lemma remove_chars_twice (p q : ascii → bool) (s : string) :
  remove_chars p (remove_chars q s) = remove_chars (fun c => q c || p c) s.
Proof.
  induction s as [|x s IH]; [done|]. simpl.
  destruct (q x); simpl; [done|]. destruct (p x); by rewrite IH.
Qed.

Lemma remove_chars_ext (p q : ascii → bool) (s : string) :
  (∀ c, p c = q c) → remove_chars p s = remove_chars q s.
Proof.
  intros H. induction s as [|x s IH]; [done|]. simpl. by rewrite H, IH.
Qed.

(** The three single-character replacements of [extract_merge_text] remove
    what the character class of [_clean_slack_markup] removes. *)
Lemma markup_removed_alike (text : string) :
  replace "~" "" (replace "_" "" (replace "*" "" text))
  = remove_chars markup_class text.
Proof.
  rewrite !replace_char_removes, !remove_chars_twice.
  apply remove_chars_ext. intros c.
  destruct c as [[] [] [] [] [] [] [] []]; reflexivity.
Qed.

Lemma extract_files_links_lines (msg : message) :
  extract_files_links msg = attachment_lines msg.
Proof.
  unfold extract_files_links, attachment_lines.
  rewrite fold_attachments. simpl. by destruct (map _ _).
Qed.

(** The graph builder and the chunking script put the same text together for
    a message that has a body: with at least one non-empty attachment summary
    [extract_merge_text] returns exactly what [_merge_message] returns;
    without any, [extract_merge_text] leaves the surrounding whitespace that
    [_merge_message] trims. *)
Theorem merge_text_agreement (msg : message) :
  text msg ≠ "" →
  (attachment_lines msg ≠ [] →
     extract_merge_text (text msg) msg = _merge_message msg)
  ∧ (attachment_lines msg = [] →
     strip (extract_merge_text (text msg) msg) = _merge_message msg).
Proof.
  intros Hbody. rewrite merge_message_section.
  unfold extract_merge_text, section_of.
  rewrite markup_removed_alike, extract_files_links_lines.
  apply nonempty_true in Hbody. rewrite Hbody.
  destruct (attachment_lines msg) as [|line lines]; split; done.
Qed.

Lemma merge_text_agreement_witness :
  extract_merge_text "*hi* &amp; bye " (Message "1" "*hi* &amp; bye " [File "plan"] [])
  = _merge_message (Message "1" "*hi* &amp; bye " [File "plan"] []).
Proof.
  destruct (merge_text_agreement (Message "1" "*hi* &amp; bye " [File "plan"] []))
    as [H _]; [discriminate|].
  apply H. discriminate.
Defined.

(** A section is empty exactly when the message has nothing to show: the
    body is missing or is cleaned away entirely, and no attachment has a
    summary. *)
Theorem merge_message_empty (msg : message) :
  _merge_message msg = ""
  ↔ _clean_slack_markup (text msg) = "" ∧ attachment_lines msg = [].
Proof.
  rewrite merge_message_section. unfold section_of, attachment_lines.
  destruct (List.filter _ (files msg)) as [|f fs]; simpl.
  - rewrite app_nil_r. destruct (nonempty (text msg)) eqn:E; simpl.
    + split; [by intros ->|by intros [-> _]].
    + destruct (text msg); [|discriminate E]. by split.
  - split; [|by intros [_ ?]]. intros H. exfalso.
    destruct (nonempty (text msg)); simpl in H.
    + destruct (_clean_slack_markup (text msg)); [|discriminate H].
      destruct (map _ fs); discriminate H.
    + destruct (map _ fs); discriminate H.
Qed.

(** The flattener works message by message: the documents of a list put
    together from two lists are the documents of the first followed by those
    of the second; there is one document per message that has an id, in the
    order of the messages, under that id. *)
Theorem flatten_messages_app (a b : list message) :
  _flatten_messages (a ++ b) = _flatten_messages a ++ _flatten_messages b
  ∧ map fst (_flatten_messages a)
    = List.filter nonempty (map timestamp a).
Proof.
  unfold _flatten_messages. rewrite fold_left_app, !flatten_fold. simpl.
  split; [done|].
  unfold flatten_spec. induction a as [|m a IH]; [done|]. simpl.
  destruct (nonempty (timestamp m)); simpl; by rewrite IH.
Qed.

(** Whatever the splitter does, the index chunker yields exactly the pieces
    of the documents, each under the id of its document, and it works
    document by document. *)
Theorem chunk_documents_members (split_text : string → list string)
    (docs docs' : list (string * string)) :
  (∀ c, In c (_chunk_documents split_text docs)
        ↔ ∃ ts text, In (ts, text) docs ∧ In (chunk_text c) (split_text text)
                     ∧ chunk_timestamp c = ts)
  ∧ _chunk_documents split_text (docs ++ docs')
    = _chunk_documents split_text docs ++ _chunk_documents split_text docs'
  ∧ length (_chunk_documents split_text docs)
    = list_sum (map (fun d => length (split_text (snd d))) docs).
Proof.
  rewrite !chunk_documents_pieces. repeat split.
  - intros (pieces & Hp & Hc)%in_concat.
    apply in_map_iff in Hp as ([ts text] & <- & Hd).
    apply in_map_iff in Hc as (piece & <- & Hpiece).
    exists ts, text. by repeat split.
  - intros (ts & text & Hd & Hpiece & Hts). apply in_concat.
    eexists. split.
    + apply in_map_iff. exists (ts, text). by split.
    + apply in_map_iff. exists (chunk_text c). split; [|done].
      destruct c. simpl in *. by subst.
  - by rewrite map_app, concat_app.
  - induction docs as [|[ts text] docs IH]; [done|]. simpl.
    by rewrite length_app, length_map, IH.
Qed.

End MessageText.

(** ** More on the reranker *)

Section RerankBounds.

Import RagQuery.

Context {Score : Type}.
Variable score_lt : Score → Score → bool.
Variable predict : list (string * string) → list Score.
Variable query : string.

Local Abbreviation scored_of docs :=
  (zip docs (predict (map (fun d => (query, page_content d)) docs))).

Lemma rerank_as_take docs k2 :
  rerank score_lt predict query docs k2
  = map fst (slice_to k2 (sorted_desc score_lt (scored_of docs))).
Proof. by rewrite rerank_is_map. Qed.

Lemma ranked_length docs :
  (∀ pairs, length (predict pairs) = length pairs) →
  length (sorted_desc score_lt (scored_of docs)) = length docs.
Proof.
  intros Hp. rewrite (Permutation_length (sorted_desc_perm score_lt _)).
  rewrite length_zip_with, Hp, length_map. lia.
Qed.

(** Rankings for growing bounds are nested: what [rerank] returns for a
    bound is the beginning of what it returns for any larger bound. *)
Theorem rerank_nested (docs : list Document) (k k' : Z) :
  (0 ≤ k)%Z → (k ≤ k')%Z →
  rerank score_lt predict query docs k
  `prefix_of` rerank score_lt predict query docs k'.
Proof.
  intros Hk Hk'. rewrite !rerank_as_take. unfold slice_to.
  assert (H1 : (0 <=? k)%Z = true) by (apply Z.leb_le; lia).
  assert (H2 : (0 <=? k')%Z = true) by (apply Z.leb_le; lia).
  rewrite H1, H2.
  replace (Z.to_nat k') with (Z.to_nat k + (Z.to_nat k' - Z.to_nat k))%nat by lia.
  rewrite <- take_take_drop. change map with (@fmap list _).
  rewrite fmap_app. by apply prefix_app_r.
Qed.

(** A negative bound is not rejected: as in a Python slice it counts from
    the end, so [rerank] returns the ranking without its last [-k2]
    entries (nothing once [-k2] reaches the number of candidates). *)
Theorem rerank_negative_bound (docs : list Document) (k2 : Z) :
  (k2 < 0)%Z →
  (∀ pairs, length (predict pairs) = length pairs) →
  rerank score_lt predict query docs k2
  = take (length docs - Z.to_nat (- k2))
         (rerank score_lt predict query docs (Z.of_nat (length docs)))
  ∧ length (rerank score_lt predict query docs k2)
    = (length docs - Z.to_nat (- k2))%nat.
Proof.
  intros Hk Hp.
  assert (Heq : rerank score_lt predict query docs k2
                = take (length docs - Z.to_nat (- k2))
                       (rerank score_lt predict query docs (Z.of_nat (length docs)))).
  { rewrite !rerank_as_take. unfold slice_to.
    assert (H1 : (0 <=? k2)%Z = false) by (apply Z.leb_gt; lia).
    assert (H2 : (0 <=? Z.of_nat (length docs))%Z = true) by (apply Z.leb_le; lia).
    rewrite H1, H2, Nat2Z.id, ranked_length by done.
    rewrite <- !fmap_take. f_equal.
    rewrite take_take. f_equal. lia. }
  split; [done|]. rewrite Heq, length_take.
  rewrite rerank_length by (done || lia). lia.
Qed.

(** With a bound that reaches the number of candidates nothing is dropped:
    the output is a rearrangement of the candidates. *)
Theorem rerank_keeps_all (docs : list Document) (k2 : Z) :
  (Z.of_nat (length docs) ≤ k2)%Z →
  (∀ pairs, length (predict pairs) = length pairs) →
  rerank score_lt predict query docs k2 ≡ₚ docs.
Proof.
  intros Hk Hp. rewrite rerank_as_take. unfold slice_to.
  assert (H1 : (0 <=? k2)%Z = true) by (apply Z.leb_le; lia).
  rewrite H1, take_ge by (rewrite ranked_length by done; lia).
  rewrite (sorted_desc_perm score_lt (scored_of docs)).
  rewrite fst_zip; [done|]. rewrite Hp, length_map. lia.
Qed.

(** The comparison is a strict weak order, as [<] is on numbers. *)
Hypothesis lt_irrefl : ∀ x, score_lt x x = false.
Hypothesis lt_trans :
  ∀ x y z, score_lt x y = true → score_lt y z = true → score_lt x z = true.
Hypothesis lt_cotrans :
  ∀ x y z, score_lt x z = true → score_lt x y = true ∨ score_lt y z = true.

(** With candidates and a bound of at least one, the first document returned
    is one that no candidate outscores. *)
Theorem rerank_best_first (docs : list Document) (k2 : Z) :
  docs ≠ [] → (1 ≤ k2)%Z →
  (∀ pairs, length (predict pairs) = length pairs) →
  ∃ d s rest,
    rerank_scored score_lt predict query docs k2 = (d, s) :: rest
    ∧ In (d, s) (scored_of docs)
    ∧ ∀ d' s', In (d', s') (scored_of docs) → score_lt s s' = false.
Proof.
  intros Hdocs Hk Hp. unfold rerank_scored, slice_to.
  assert (H1 : (0 <=? k2)%Z = true) by (apply Z.leb_le; lia).
  rewrite H1.
  pose proof (sorted_desc_descending score_lt lt_irrefl lt_trans lt_cotrans
                (scored_of docs)) as Hsorted.
  pose proof (sorted_desc_perm score_lt (scored_of docs)) as Hperm.
  pose proof (ranked_length docs Hp) as Hlen.
  destruct (sorted_desc score_lt (scored_of docs)) as [|[d s] ranked].
  { destruct docs; [done|discriminate Hlen]. }
  destruct (Z.to_nat k2) as [|n] eqn:E; [lia|].
  exists d, s, (take n ranked). split; [done|].
  apply StronglySorted_inv in Hsorted as [_ Hall].
  split.
  - apply (Permutation_in _ Hperm). by left.
  - intros d' s' Hin. apply (Permutation_in _ (Permutation_sym Hperm)) in Hin.
    destruct Hin as [[= <- <-]|Hin]; [apply lt_irrefl|].
    rewrite Forall_forall in Hall. by apply (Hall (d', s')), list_elem_of_In.
Qed.

End RerankBounds.

Section RerankBoundsExamples.

Import RagQuery.

Lemma rerank_nested_witness :
  rerank Z.ltb length_score "q" candidates_example 1
  `prefix_of` rerank Z.ltb length_score "q" candidates_example 3.
Proof. apply rerank_nested; lia. Defined.

Lemma rerank_negative_bound_witness :
  length (rerank Z.ltb length_score "q" candidates_example (-1)) = 3%nat.
Proof.
  destruct (rerank_negative_bound Z.ltb length_score "q" candidates_example (-1))
    as [_ H]; [lia|apply length_score_length|exact H].
Defined.

Lemma rerank_keeps_all_witness :
  rerank Z.ltb length_score "q" candidates_example 4 ≡ₚ candidates_example.
Proof. apply rerank_keeps_all; [simpl; lia|apply length_score_length]. Defined.

Lemma rerank_best_first_witness :
  ∃ d s rest,
    rerank_scored Z.ltb length_score "q" candidates_example 2 = (d, s) :: rest
    ∧ In (d, s) (zip candidates_example
                     (length_score (map (fun d => ("q", page_content d))
                                        candidates_example)))
    ∧ ∀ d' s', In (d', s')
                  (zip candidates_example
                       (length_score (map (fun d => ("q", page_content d))
                                          candidates_example)))
               → Z.ltb s s' = false.
Proof.
  apply (rerank_best_first Z.ltb length_score "q" Zltb_irrefl Zltb_trans
           Zltb_cotrans candidates_example 2);
    [discriminate|lia|apply length_score_length].
Defined.

End RerankBoundsExamples.

(** ** More on the batch loop *)

Section LoopExtras.

Import GraphBuilder BatchSpec BatchLedger.

Context {GraphDocument Backend : Type}.
Variable ntokens : string → nat.
Variable convert_to_graph_documents :
  Backend → Document → Backend * (string + list GraphDocument).
Variable add_graph_documents :
  Backend → list GraphDocument → Backend * option string.

Local Abbreviation process_message :=
  (process_message ntokens convert_to_graph_documents add_graph_documents).
Local Abbreviation run := (run ntokens convert_to_graph_documents add_graph_documents).
Local Abbreviation batch := (batch ntokens convert_to_graph_documents add_graph_documents).
Local Abbreviation unit_of_work :=
  (unit_of_work convert_to_graph_documents add_graph_documents).
Local Abbreviation convert_all := (convert_all convert_to_graph_documents).
Local Abbreviation trace := (list (@event GraphDocument)).
Local Abbreviation iteration := (@iteration GraphDocument Backend ntokens).
Local Abbreviation execution := (@execution GraphDocument Backend ntokens).

(** *** Replies only add to the content *)

Lemma append_replies_bound (s : string) (replies : list message) :
  ∃ suffix,
    append_replies (Some s) replies = inr (Some (s +:+ suffix))
    ∧ (Forall (fun r => text r = "") replies → suffix = "").
Proof.
  revert s. induction replies as [|r replies IH]; intros s.
  - exists "". by rewrite sapp_nil_r.
  - cbn [append_replies]. destruct (nonempty (text r)) eqn:E.
    + destruct (IH (s +:+ blank_line +:+ extract_merge_text (text r) r))
        as (suffix & -> & _).
      exists ((blank_line +:+ extract_merge_text (text r) r) +:+ suffix). split.
      * by rewrite !sapp_assoc.
      * intros H. apply Forall_cons in H as [Hr _]. rewrite Hr in E. discriminate E.
    + destruct (IH s) as (suffix & -> & Hs). exists suffix. split; [done|].
      intros H. apply Forall_cons in H as [_ H]. by apply Hs.
Qed.

(** *** What a run leaves in the ledger *)

Lemma iteration_settles st msg st' tr :
  iteration st msg st' tr None →
  (∀ i, settled (checkpoint st !! i) = true → settled (checkpoint st' !! i) = true)
  ∧ (timestamp msg ≠ "" → settled (checkpoint st' !! timestamp msg) = true).
Proof.
  intros Hit.
  inversion Hit as [Hskip| |? content cs entry Hid Hnd Hck _ _ _ _ Hentry]; subst.
  - split; [done|]. intros Hid. destruct Hskip as [?|Hd]; [done|].
    destruct (checkpoint st' !! timestamp msg) as [[]|]; done.
  - assert (He : settled (Some entry) = true).
    { destruct Hentry as [[-> _]|[m ->]]; done. }
    split.
    + intros i Hi. rewrite Hck.
      destruct (decide (timestamp msg = i)) as [<-|Hne].
      * by rewrite lookup_insert_eq.
      * by rewrite !lookup_insert_ne.
    + intros _. by rewrite Hck, lookup_insert_eq.
Qed.

Lemma execution_settles st messages st' tr :
  execution st messages st' tr Completed →
  (∀ i, settled (checkpoint st !! i) = true → settled (checkpoint st' !! i) = true)
  ∧ (∀ m, In m messages → timestamp m ≠ "" →
          settled (checkpoint st' !! timestamp m) = true).
Proof.
  intros Hex. remember Completed as out eqn:Hout. revert Hout.
  induction Hex as [st|st msg messages st' tr e Hit
                    |st msg messages st1 tr1 st2 tr2 out Hit Hex IH];
    intros Hout; [by split|done|].
  destruct (iteration_settles _ _ _ _ Hit) as [H1 H2].
  destruct (IH Hout) as [H3 H4]. split.
  - intros i Hi. by apply H3, H1.
  - intros m [<-|Hin] Hid; [by apply H3, H2|by apply H4].
Qed.

(** After a run that went through the whole list, every message that has an
    id is recorded as done or as error: none is left pending or without
    entry. *)
Theorem completed_run_settles_every_item
    (file : option (gmap string CheckpointEntry)) (be : Backend)
    (messages : list message) :
  let '(st', tr, out) := batch file be messages in
  out = Completed →
  ∀ m, In m messages → timestamp m ≠ "" →
       settled (checkpoint st' !! timestamp m) = true.
Proof.
  unfold GraphBuilder.batch.
  pose proof (run_execution ntokens convert_to_graph_documents
                add_graph_documents (initial_state file be) messages) as Hex.
  destruct (run (initial_state file be) messages) as [[st' tr] out].
  intros ->. by apply (execution_settles _ _ _ _ Hex).
Qed.

Lemma successes_app i (t1 t2 : trace) :
  successes i (t1 ++ t2) = (successes i t1 + successes i t2)%nat.
Proof. unfold successes. by rewrite List.filter_app, length_app. Qed.

Lemma successes_calls i j (cs : trace) :
  Forall (call_for j) cs → successes i cs = 0%nat.
Proof.
  induction 1 as [|ev cs Hev _ IH]; [done|].
  destruct ev; try discriminate Hev; exact IH.
Qed.

Lemma iteration_successes st msg st' tr raised i :
  iteration st msg st' tr raised →
  (successes i tr ≤ 1)%nat
  ∧ (is_done (checkpoint st !! i) = true →
       successes i tr = 0%nat ∧ is_done (checkpoint st' !! i) = true)
  ∧ (successes i tr = 1%nat → is_done (checkpoint st' !! i) = true).
Proof.
  intros Hit.
  destruct Hit as [ |st' e Hid Hnd Hck Hf
                   |st' content cs entry Hid Hnd Hck Hf Hc Hcs _ Hentry].
  - unfold successes. simpl. repeat split; (lia || done).
  - unfold successes. simpl. repeat split; try (lia || done).
    rewrite Hck, lookup_insert_ne; [done|]. intros <-. congruence.
  - rewrite !successes_app, (successes_calls _ _ _ Hcs).
    assert (Hne : is_done (checkpoint st !! i) = true → timestamp msg ≠ i).
    { intros Hd <-. congruence. }
    assert (Hkeep : is_done (checkpoint st !! i) = true →
                    is_done (checkpoint st' !! i) = true).
    { intros Hd. rewrite Hck, !lookup_insert_ne; [done|by apply Hne..]. }
    unfold successes. cbn [List.filter marks_done app length Nat.add].
    destruct Hentry as [[-> _]|[m ->]]; cbn [length Nat.add].
    + destruct (bool_decide (timestamp msg = i)) eqn:E; cbn [length].
      * apply bool_decide_eq_true in E. split; [lia|split].
        -- intros Hd. by apply Hne in Hd.
        -- intros _. subst i. by rewrite Hck, lookup_insert_eq.
      * split; [lia|split]; [by auto|lia].
    + split; [lia|split]; [by auto|lia].
Qed.

Lemma execution_successes st messages st' tr out i :
  execution st messages st' tr out →
  (successes i tr ≤ 1)%nat
  ∧ (is_done (checkpoint st !! i) = true →
       successes i tr = 0%nat ∧ is_done (checkpoint st' !! i) = true)
  ∧ (successes i tr = 1%nat → is_done (checkpoint st' !! i) = true).
Proof.
  induction 1 as [st|st msg messages st' tr e Hit
                  |st msg messages st1 tr1 st2 tr2 out Hit Hex IH].
  - unfold successes. simpl. split; [lia|split]; [done|lia].
  - by eapply iteration_successes.
  - destruct (iteration_successes _ _ _ _ _ i Hit) as (H1 & H2 & H3).
    destruct IH as (H4 & H5 & H6). rewrite successes_app.
    assert (Hcase : successes i tr1 = 0%nat ∨ successes i tr1 = 1%nat) by lia.
    destruct Hcase as [Hz|Ho].
    + rewrite Hz. split; [lia|split]; [|done].
      intros Hd. destruct (H2 Hd) as [_ Hd1]. destruct (H5 Hd1). split; [lia|done].
    + destruct (H5 (H3 Ho)) as [Hz Hd2]. rewrite Hz, Ho.
      split; [lia|split]; [|done].
      intros Hd. destruct (H2 Hd). lia.
Qed.

(** In one run an item is marked done at most once, and never when the
    checkpoint file already records it as done; an item marked done in the
    run is done in the ledger at the end. *)
Theorem at_most_one_success
    (file : option (gmap string CheckpointEntry)) (be : Backend)
    (messages : list message) (i : string) :
  let '(st', tr, out) := batch file be messages in
  (successes i tr ≤ 1)%nat
  ∧ (is_done (load file !! i) = true → successes i tr = 0%nat)
  ∧ (successes i tr = 1%nat → is_done (checkpoint st' !! i) = true).
Proof.
  unfold GraphBuilder.batch.
  pose proof (run_execution ntokens convert_to_graph_documents
                add_graph_documents (initial_state file be) messages) as Hex.
  destruct (run (initial_state file be) messages) as [[st' tr] out].
  destruct (execution_successes _ _ _ _ _ i Hex) as (H1 & H2 & H3).
  repeat split; [done| |done]. intros Hd. by apply H2.
Qed.

Lemma iteration_other_entries st msg st' tr raised i :
  iteration st msg st' tr raised →
  (i ≠ timestamp msg ∨ i = "" → checkpoint st' !! i = checkpoint st !! i)
  ∧ (is_Some (checkpoint st !! i) → is_Some (checkpoint st' !! i)).
Proof.
  intros Hit.
  destruct Hit as [ |st' e Hid Hnd Hck Hf
                   |st' content cs entry Hid Hnd Hck Hf Hc Hcs _ Hentry].
  - by split.
  - split.
    + intros Hi. rewrite Hck, lookup_insert_ne; [done|].
      destruct Hi as [?| ->]; congruence.
    + intros Hi. rewrite Hck.
      destruct (decide (timestamp msg = i)) as [<-|Hne].
      * by rewrite lookup_insert_eq.
      * by rewrite lookup_insert_ne.
  - split.
    + intros Hi. rewrite Hck, !lookup_insert_ne; [done|..];
        destruct Hi as [?| ->]; congruence.
    + intros Hi. rewrite Hck.
      destruct (decide (timestamp msg = i)) as [<-|Hne].
      * by rewrite lookup_insert_eq.
      * by rewrite !lookup_insert_ne.
Qed.

Lemma execution_other_entries st messages st' tr out i :
  execution st messages st' tr out →
  (¬ In i (map timestamp messages) ∨ i = "" →
     checkpoint st' !! i = checkpoint st !! i)
  ∧ (is_Some (checkpoint st !! i) → is_Some (checkpoint st' !! i)).
Proof.
  induction 1 as [st|st msg messages st' tr e Hit
                  |st msg messages st1 tr1 st2 tr2 out Hit Hex IH].
  - by split.
  - destruct (iteration_other_entries _ _ _ _ _ i Hit) as [H1 H2].
    split; [|done]. intros [Hi| ->]; apply H1; [|by right].
    left. intros ->. apply Hi. by left.
  - destruct (iteration_other_entries _ _ _ _ _ i Hit) as [H1 H2].
    destruct IH as [H3 H4]. split.
    + intros Hi. rewrite H3, H1; [done| |].
      * destruct Hi as [Hi| ->]; [left|by right]. intros ->. apply Hi. by left.
      * destruct Hi as [Hi| ->]; [left|by right]. intros Hin. apply Hi. by right.
    + intros Hi. by apply H4, H2.
Qed.

(** A run only touches the entries of the messages it is given: the entry of
    any other id, and of the empty id, is at the end what the checkpoint file
    held; no entry is ever removed. *)
Theorem run_leaves_other_entries
    (file : option (gmap string CheckpointEntry)) (be : Backend)
    (messages : list message) (i : string) :
  let '(st', tr, out) := batch file be messages in
  (¬ In i (map timestamp messages) ∨ i = "" →
     checkpoint st' !! i = load file !! i)
  ∧ (is_Some (load file !! i) → is_Some (checkpoint st' !! i)).
Proof.
  unfold GraphBuilder.batch.
  pose proof (run_execution ntokens convert_to_graph_documents
                add_graph_documents (initial_state file be) messages) as Hex.
  destruct (run (initial_state file be) messages) as [[st' tr] out].
  apply (execution_other_entries _ _ _ _ _ i Hex).
Qed.

(** *** Extraction and insertion within one iteration *)

Lemma convert_all_converts be msg_id documents graph_docs be' evs r :
  convert_all be msg_id documents graph_docs = (be', evs, r) →
  ∃ n, evs = map (EConvert msg_id) (take n documents)
       ∧ (∀ gds, r = inr gds → evs = map (EConvert msg_id) documents).
Proof.
  revert be graph_docs be' evs r.
  induction documents as [|d ds IH]; intros be graph_docs be' evs r; simpl.
  - intros [= <- <- <-]. by exists 0%nat.
  - destruct (convert_to_graph_documents be d) as [be1 [err|res]].
    + intros [= <- <- <-]. by exists 1%nat.
    + destruct (convert_all be1 msg_id ds (graph_docs ++ res))
        as [[be2 evs2] r2] eqn:E.
      intros [= <- <- <-]. destruct (IH _ _ _ _ _ E) as (n & -> & Hall).
      exists (S n). split; [done|].
      intros gds ->. simpl. f_equal. by apply (Hall gds).
Qed.

Lemma in_take {A} (x : A) n (l : list A) : In x (take n l) → In x l.
Proof.
  revert n. induction l as [|y l IH]; intros [|n]; simpl; try done.
  intros [->|H]; [by left|right; by apply (IH n)].
Qed.

Lemma calls_of_calls msg_id (cs : trace) :
  Forall (call_for msg_id) cs → calls cs = cs.
Proof.
  induction 1 as [|ev cs Hev _ IH]; [done|].
  unfold calls in *. cbn [List.filter]. unfold call_for in Hev.
  rewrite Hev, bool_decide_eq_true_2 by by eexists. by rewrite IH.
Qed.

Lemma calls_around msg_id e1 c1 e2 c2 (cs : trace) :
  Forall (call_for msg_id) cs →
  calls ([ESet msg_id e1; EDump c1] ++ cs ++ [ESet msg_id e2; EDump c2]) = cs.
Proof.
  intros Hcs. unfold calls. rewrite !List.filter_app.
  fold (calls cs). rewrite (calls_of_calls _ _ Hcs). simpl. apply app_nil_r.
Qed.

Lemma unit_of_work_calls be msg_id documents be' evs r :
  unit_of_work be msg_id documents = (be', evs, r) →
  Forall (call_for msg_id) evs
  ∧ ((∃ n err, evs = map (EConvert msg_id) (take n documents) ∧ r = Some err)
     ∨ (∃ gds, evs = map (EConvert msg_id) documents ++ [EAddGraph msg_id gds])).
Proof.
  intros H. split; [by apply (unit_of_work_shape _ _ _ _ _ _ _ _ H)|].
  revert H. unfold GraphBuilder.unit_of_work.
  destruct (convert_all be msg_id documents []) as [[be1 evs1] r1] eqn:E.
  destruct (convert_all_converts _ _ _ _ _ _ _ E) as (n & Hn & Hall).
  destruct r1 as [err|gds].
  - intros [= <- <- <-]. left. by exists n, err.
  - destruct (add_graph_documents be1 gds) as [be2 r2].
    intros [= <- <- <-]. right. exists gds. by rewrite (Hall gds).
Qed.

(** The graph database only ever receives the result of a complete
    extraction: when an iteration calls the insertion, it does so once, for
    the item at hand, after the extraction call of every sub-unit in order
    and of nothing else.  An attempted item for which the insertion was not
    called is recorded as error. *)
Theorem insertion_follows_complete_extraction (st : loop_state) (msg : message) :
  let '(st', tr, raised) := process_message st msg in
  (∀ i gds, In (EAddGraph i gds) tr →
     i = timestamp msg
     ∧ ∃ content,
         slack_content st' = Some content
         ∧ calls tr
           = map (EConvert i) (split_documents ntokens i content)
               ++ [EAddGraph i gds])
  ∧ (raised = None → tr ≠ [] →
     (∀ i gds, ¬ In (EAddGraph i gds) tr) →
     ∃ err_msg, checkpoint st' !! timestamp msg = Some (Error err_msg)).
Proof.
  unfold GraphBuilder.process_message.
  destruct (nonempty (timestamp msg)); cbn [negb]; [|by split].
  destruct (is_done (checkpoint st !! timestamp msg)); [by split|].
  cbn.
  destruct (append_replies _ _) as [e|[content|]].
  - split; [|done]. intros i gds [[=]|[[=]|[]]].
  - destruct (GraphBuilder.unit_of_work _ _ _ _ _) as [[be evs] r] eqn:E.
    destruct (unit_of_work_calls _ _ _ _ _ _ E) as [Hcs Hshape].
    assert (Hcalls : ∀ e c2,
              List.filter (fun ev : @event GraphDocument =>
                             bool_decide (is_Some (call_of ev)))
                          (evs ++ [ESet (timestamp msg) e; EDump c2]) = evs).
    { intros e c2. rewrite List.filter_app. fold (calls evs).
      rewrite (calls_of_calls _ _ Hcs). simpl. apply app_nil_r. }
    assert (Hin : ∀ i gds e c2,
              In (EAddGraph i gds)
                 (ESet (timestamp msg) Pending
                    :: EDump (<[timestamp msg:=Pending]> (checkpoint st))
                    :: evs ++ [ESet (timestamp msg) e; EDump c2]) →
              In (EAddGraph i gds) evs).
    { intros i gds e c2 [[=]|[[=]|Hin]].
      apply in_app_or in Hin as [?|[[=]|[[=]|[]]]]. done. }
    assert (Hadd : ∀ i gds, In (EAddGraph i gds) evs →
              i = timestamp msg
              ∧ evs = map (EConvert i)
                          (split_documents ntokens i content)
                        ++ [EAddGraph i gds]).
    { intros i gds Hi. destruct Hshape as [(n & err & -> & _)|[gds' ->]].
      - apply in_map_iff in Hi as (? & [=] & _).
      - apply in_app_or in Hi as [Hi|[[= <- <-]|[]]]; [|done].
        apply in_map_iff in Hi as (? & [=] & _). }
    destruct r as [err|]; cbn.
    + split.
      * intros i gds Hi%Hin. destruct (Hadd i gds Hi) as [-> Hevs].
        split; [done|]. exists content. split; [done|]. by rewrite Hcalls.
      * intros _ _ _. exists err. by rewrite lookup_insert_eq.
    + split.
      * intros i gds Hi%Hin. destruct (Hadd i gds Hi) as [-> Hevs].
        split; [done|]. exists content. split; [done|]. by rewrite Hcalls.
      * intros _ _ Hno. exfalso.
        destruct Hshape as [(n & err & _ & [=])|[gds ->]].
        apply (Hno (timestamp msg) gds). right. right.
        apply in_or_app. left. apply in_or_app. right. by left.
  - split; [|done]. intros i gds [[=]|[[=]|[]]].
Qed.

End LoopExtras.

(** ** Paragraph packing keeps the text *)

Section PackingKeepsText.

Import GraphBuilder BatchSpec.

Variable ntokens : string → nat.

Lemma split_go_skip sep x cur r :
  split_go sep (String.length x) cur (x +:+ r) = split_go sep 0 cur r.
Proof. induction x as [|c x IH]; [done|]. by rewrite sapp_cons. Qed.

Lemma srev_cons c cur : String.rev (String c cur) = String.rev cur +:+ String c "".
Proof. apply chars_inj. by rewrite chars_app, !chars_rev. Qed.

Lemma join_cons sep x l :
  l ≠ [] → join sep (x :: l) = x +:+ sep +:+ join sep l.
Proof. by destruct l. Qed.

(** Joining the pieces of a split with the separator gives the text back. *)
Lemma join_split_go h t n s cur :
  (String.length s ≤ n)%nat →
  join (String h t) (split_go (String h t) 0 cur s) = String.rev cur +:+ s.
Proof.
  revert s cur. induction n as [|n IH]; intros s cur Hn.
  - destruct s; [|simpl in Hn; lia]. simpl. by rewrite sapp_nil_r.
  - destruct s as [|c s]; [simpl; by rewrite sapp_nil_r|].
    cbn [split_go]. destruct (String.prefix (String h t) (String c s)) eqn:E.
    + destruct (prefix_split _ _ E) as [r Hr].
      rewrite sapp_cons in Hr. injection Hr as -> ->.
      replace (String.length (String h t) - 1)%nat with (String.length t)
        by (simpl; lia).
      rewrite split_go_skip, join_cons by apply split_go_not_nil.
      rewrite IH.
      * by rewrite sapp_nil_l, sapp_cons.
      * simpl in Hn. rewrite slength_app in Hn. lia.
    + rewrite IH by (simpl in Hn; lia).
      by rewrite srev_cons, sapp_assoc.
Qed.

Lemma join_split h t s : join (String h t) (split (String h t) s) = s.
Proof. unfold split. by rewrite (join_split_go h t (String.length s)). Qed.

Lemma glue_app a b : glue (a ++ b) = glue a +:+ glue b.
Proof.
  induction a as [|p a IH]; [done|]. simpl. by rewrite IH, !sapp_assoc.
Qed.

Lemma glue_join paras :
  paras ≠ [] → glue paras = join blank_line paras +:+ blank_line.
Proof.
  induction paras as [|p paras IH]; [done|]. intros _.
  destruct paras as [|q paras].
  - simpl. by rewrite sapp_nil_r.
  - rewrite join_cons by done. cbn [glue foldr] in *.
    rewrite IH by done. by rewrite !sapp_assoc.
Qed.

Lemma glue_groups groups :
  String.concat "" (map glue groups) = glue (concat groups).
Proof.
  induction groups as [|g groups IH]; [done|].
  cbn [map concat]. rewrite glue_app, <- IH.
  destruct (map glue groups); simpl; by rewrite ?sapp_nil_r.
Qed.

(** Packing loses no text: content above the limit is cut into groups of
    paragraphs, every sub-unit is the trimmed text of a group, and the texts
    of the groups, before trimming, put end to end are the content followed
    by one paragraph delimiter. *)
Theorem packing_keeps_text (msg_id content : string) :
  (token_limit < ntokens content)%nat →
  ∃ groups : list (list string),
    split_documents ntokens msg_id content = map (render msg_id) groups
    ∧ String.concat "" (map glue groups) = content +:+ blank_line.
Proof.
  intros Hover.
  exists (pack_groups ntokens [] 0 (split blank_line content)). split.
  - by apply split_documents_over.
  - rewrite glue_groups, pack_groups_concat. simpl.
    rewrite glue_join by apply split_go_not_nil.
    by rewrite (join_split "010" (String "010" "")).
Qed.

End PackingKeepsText.

(** ** Building the vector store *)

Section VectorStore.

Import VectorStoreSaver.

Example build_vector_store_example :
  build_vector_store chunk_files "faiss_index" 2
  = ([ FromTexts ["one"; "two"]
         [ {[ "timestamp" := "1" ]}; {[ "timestamp" := "1" ]} ];
       AddTexts ["three"; "four"]
         [ {[ "timestamp" := "2" ]}; {[ "timestamp" := "3" ]} ];
       AddTexts ["five"] [ {[ "timestamp" := "4" ]} ];
       SaveLocal "faiss_index" ], None).
Proof. vm_compute. reflexivity. Qed.

Lemma gather_records recs (texts : list string)
    (metadatas : list (gmap string string)) :
  fold_left
    (fun '(texts, metadatas) rec =>
       (texts ++ [text_of rec], metadatas ++ [metadata_of rec]))
    recs (texts, metadatas)
  = (texts ++ map text_of recs, metadatas ++ map metadata_of recs).
Proof.
  revert texts metadatas. induction recs as [|r recs IH]; intros texts metadatas.
  - simpl. by rewrite !app_nil_r.
  - simpl. rewrite IH. by rewrite <- !app_assoc.
Qed.

(** The gathering loop stops at the first file that fails the schema test;
    otherwise it collects the texts and the metadata of all records. *)
Lemma gather_all files texts metadatas :
  gather files texts metadatas
  = match first_invalid files with
    | Some p =>
        inl (ValueError ("Invalid schema in " +:+ p
                           +:+ "; each record needs 'timestamp' and 'text'."))
    | None =>
        inr (texts ++ map text_of (all_records files),
             metadatas ++ map metadata_of (all_records files))
    end.
Proof.
  revert texts metadatas.
  induction files as [|[p data] files IH]; intros texts metadatas.
  - simpl. by rewrite !app_nil_r.
  - cbn [gather]. unfold _read_json_records, first_invalid. cbn [List.find snd].
    destruct (forallb has_schema data); cbn [negb]; [|done].
    rewrite gather_records, IH. unfold first_invalid.
    destruct (List.find _ files); cbn; [done|].
    unfold all_records. cbn [map concat snd].
    by rewrite !map_app, !app_assoc.
Qed.

Lemma slice_batch {A} (l : list A) (j : nat) (size : Z) :
  (0 < size)%Z →
  slice (Z.of_nat j * size) (Z.of_nat j * size + size) l
  = take (Z.to_nat size) (drop (j * Z.to_nat size) l).
Proof.
  intros Hs. unfold slice, clamp_index.
  assert (H1 : (Z.of_nat j * size <? 0)%Z = false) by (apply Z.ltb_ge; nia).
  assert (H2 : (Z.of_nat j * size + size <? 0)%Z = false) by (apply Z.ltb_ge; nia).
  rewrite H1, H2.
  destruct (decide (j * Z.to_nat size < length l)%nat) as [Hlt|Hge].
  - replace (Z.to_nat (Z.of_nat (length l) `min` (0 `max` (Z.of_nat j * size))))
      with (j * Z.to_nat size)%nat by nia.
    destruct (decide (j * Z.to_nat size + Z.to_nat size ≤ length l)%nat).
    + f_equal. nia.
    + rewrite !take_ge; [done|rewrite length_drop; nia..].
  - rewrite !drop_ge by nia. by rewrite !take_nil.
Qed.

Lemma concat_batches {A} (size n : nat) (l : list A) :
  (length l ≤ n * size)%nat →
  concat (map (fun j => take size (drop (j * size) l)) (seq 0 n)) = l.
Proof.
  revert l. induction n as [|n IH]; intros l Hl.
  - destruct l; [done|simpl in Hl; lia].
  - rewrite <- cons_seq, <- seq_shift. cbn [map concat].
    rewrite map_map, Nat.mul_0_l, drop_0.
    transitivity (take size l ++ drop size l); [|apply take_drop].
    f_equal.
    etransitivity; [|apply (IH (drop size l)); rewrite length_drop; lia].
    f_equal. apply map_ext. intros j. by rewrite drop_drop.
Qed.

Lemma embed_more texts metadatas size indices log :
  fold_left (embed_batch texts metadatas size) indices (true, log)
  = (true,
     log ++ map (fun i => AddTexts (slice i (i + size) texts)
                                   (slice i (i + size) metadatas)) indices).
Proof.
  revert log. induction indices as [|i indices IH]; intros log; simpl.
  - by rewrite app_nil_r.
  - rewrite IH. by rewrite <- app_assoc.
Qed.

Lemma batch_count (len : nat) (size : Z) :
  (0 < size)%Z →
  let n := Z.to_nat ((Z.of_nat len + size - 1) / size) in
  (len ≤ n * Z.to_nat size)%nat
  ∧ (0 < len → 0 < n ∧ (n - 1) * Z.to_nat size < len)%nat.
Proof.
  intros Hs n.
  pose proof (Z.div_mod (Z.of_nat len + size - 1) size ltac:(lia)) as Hdm.
  pose proof (Z.mod_pos_bound (Z.of_nat len + size - 1) size Hs) as Hb.
  assert (Hq : (0 ≤ (Z.of_nat len + size - 1) / size)%Z)
    by (apply Z.div_pos; lia).
  subst n. split; [nia|]. intros Hlen. split; nia.
Qed.

(** With valid files, at least one record and a positive batch size, the
    store is created from the first batch, extended with each further batch
    and saved once at the end; the batches, in order, are exactly the texts
    of all records with their metadata alongside; every batch holds at least
    one and at most [texts_per_batch] texts. *)
Theorem build_vector_store_batches
    (input_files : list (string * list (gmap string string)))
    (index_out : string) (texts_per_batch : Z) :
  first_invalid input_files = None →
  all_records input_files ≠ [] →
  (0 < texts_per_batch)%Z →
  ∃ first_texts first_meta more,
    build_vector_store input_files index_out texts_per_batch
    = (FromTexts first_texts first_meta :: more ++ [SaveLocal index_out], None)
    ∧ forallb is_add more = true
    ∧ concat (map call_texts (FromTexts first_texts first_meta :: more))
      = map text_of (all_records input_files)
    ∧ concat (map call_metadatas (FromTexts first_texts first_meta :: more))
      = map metadata_of (all_records input_files)
    ∧ Forall (fun c =>
                (0 < length (call_texts c) ≤ Z.to_nat texts_per_batch)%nat
                ∧ length (call_metadatas c) = length (call_texts c))
             (FromTexts first_texts first_meta :: more).
Proof.
  intros Hvalid Hrecs Hsize. unfold build_vector_store.
  rewrite gather_all, Hvalid. cbn [app].
  set (records := all_records input_files) in *.
  set (texts := map text_of records). set (metas := map metadata_of records).
  assert (Hlt : length texts = length records) by apply length_map.
  assert (Hlm : length metas = length records) by apply length_map.
  unfold range.
  assert (Hz : (texts_per_batch =? 0)%Z = false) by (apply Z.eqb_neq; lia).
  assert (Hp : (0 <? texts_per_batch)%Z = true) by (apply Z.ltb_lt; lia).
  rewrite Hz, Hp, Z.sub_0_r.
  destruct (batch_count (length texts) texts_per_batch Hsize) as [Hcover Hlast].
  set (n := Z.to_nat ((Z.of_nat (length texts) + texts_per_batch - 1)
                        / texts_per_batch)) in *.
  set (size := Z.to_nat texts_per_batch) in *.
  destruct Hlast as [Hn Hlast].
  { rewrite Hlt. destruct records; [done|simpl; lia]. }
  destruct n as [|n'] eqn:En; [lia|].
  rewrite <- cons_seq. cbn [map fold_left embed_batch].
  rewrite embed_more. cbn [app].
  set (batch_t := fun j : nat => take size (drop (j * size) texts)).
  set (batch_m := fun j : nat => take size (drop (j * size) metas)).
  assert (Hslice_t : ∀ j : nat,
            slice (0 + Z.of_nat j * texts_per_batch)
                  (0 + Z.of_nat j * texts_per_batch + texts_per_batch) texts
            = batch_t j).
  { intros j. rewrite Z.add_0_l. by apply slice_batch. }
  assert (Hslice_m : ∀ j : nat,
            slice (0 + Z.of_nat j * texts_per_batch)
                  (0 + Z.of_nat j * texts_per_batch + texts_per_batch) metas
            = batch_m j).
  { intros j. rewrite Z.add_0_l. by apply slice_batch. }
  rewrite (Hslice_t 0%nat), (Hslice_m 0%nat), map_map.
  exists (batch_t 0%nat), (batch_m 0%nat),
         (map (fun j => AddTexts (batch_t j) (batch_m j)) (seq 1 n')).
  assert (Hmore :
            map (fun j : nat =>
                   AddTexts
                     (slice (0 + Z.of_nat j * texts_per_batch)
                        (0 + Z.of_nat j * texts_per_batch + texts_per_batch) texts)
                     (slice (0 + Z.of_nat j * texts_per_batch)
                        (0 + Z.of_nat j * texts_per_batch + texts_per_batch) metas))
                (seq 1 n')
            = map (fun j => AddTexts (batch_t j) (batch_m j)) (seq 1 n')).
  { apply map_ext. intros j. by rewrite Hslice_t, Hslice_m. }
  rewrite Hmore. split; [done|]. split; [|split; [|split]].
  - apply forallb_forall. intros c Hc. by apply in_map_iff in Hc as (j & <- & _).
  - cbn [map concat call_texts]. rewrite map_map. cbn [call_texts].
    change (batch_t 0%nat ++ concat (map batch_t (seq 1 n')))
      with (concat (map batch_t (seq 0 (S n')))).
    exact (concat_batches size (S n') texts Hcover).
  - cbn [map concat call_metadatas]. rewrite map_map. cbn [call_metadatas].
    change (batch_m 0%nat ++ concat (map batch_m (seq 1 n')))
      with (concat (map batch_m (seq 0 (S n')))).
    apply (concat_batches size (S n') metas). by rewrite Hlm, <- Hlt.
  - assert (Hbatch : ∀ j, (j < S n')%nat →
              (0 < length (batch_t j) ≤ size)%nat
              ∧ length (batch_m j) = length (batch_t j)).
    { intros j Hj. unfold batch_t, batch_m.
      rewrite !length_take, !length_drop, Hlm, <- Hlt. nia. }
    constructor; [by apply Hbatch; lia|].
    apply Forall_forall. intros c Hc. apply list_elem_of_In in Hc.
    apply in_map_iff in Hc as (j & <- & Hj). apply in_seq in Hj.
    apply Hbatch. lia.
Qed.

(** A file with a record that lacks [timestamp] or [text] stops everything
    before any embedding: the error names the first such file, the store is
    neither created nor saved. *)
Theorem build_vector_store_invalid_schema
    (input_files : list (string * list (gmap string string)))
    (index_out path : string) (texts_per_batch : Z) :
  first_invalid input_files = Some path →
  build_vector_store input_files index_out texts_per_batch
  = ([], Some (ValueError ("Invalid schema in " +:+ path
                             +:+ "; each record needs 'timestamp' and 'text'.")))
  ∧ ∃ data rec, In (path, data) input_files ∧ In rec data
                ∧ (rec !! "timestamp" = None ∨ rec !! "text" = None).
Proof.
  intros Hbad. unfold build_vector_store. rewrite gather_all, Hbad.
  split; [done|]. unfold first_invalid in Hbad.
  destruct (List.find _ input_files) as [[p data]|] eqn:Hfind; [|done].
  injection Hbad as ->. apply find_some in Hfind as [Hin Hnot].
  exists data. apply negb_true_iff in Hnot. cbn [snd] in Hnot.
  assert (Hex : ∃ rec, In rec data ∧ has_schema rec = false).
  { clear -Hnot. induction data as [|r data IH]; [done|]. simpl in Hnot.
    destruct (has_schema r) eqn:E.
    - destruct (IH Hnot) as (rec & ? & ?). exists rec. split; [by right|done].
    - exists r. split; [by left|done]. }
  destruct Hex as (rec & Hrec & Hs). exists rec. repeat split; try done.
  unfold has_schema in Hs. apply andb_false_iff in Hs as [Hs|Hs];
    apply bool_decide_eq_false in Hs; [left|right];
    by apply eq_None_not_Some.
Qed.

(** With valid files, nothing is embedded and nothing is saved when there is
    no record or when the batch size is not positive: a batch size of zero is
    refused by [range], and otherwise the final assertion fails. *)
Theorem build_vector_store_nothing_to_embed
    (input_files : list (string * list (gmap string string)))
    (index_out : string) (texts_per_batch : Z) :
  first_invalid input_files = None →
  all_records input_files = [] ∨ (texts_per_batch ≤ 0)%Z →
  build_vector_store input_files index_out texts_per_batch
  = ([], Some (if (texts_per_batch =? 0)%Z
               then ValueError "range() arg 3 must not be zero"
               else AssertionError "No data embedded!")).
Proof.
  intros Hvalid Hnone. unfold build_vector_store.
  rewrite gather_all, Hvalid. cbn [app]. unfold range.
  destruct (texts_per_batch =? 0)%Z eqn:Hz; [done|].
  apply Z.eqb_neq in Hz.
  assert (Hn : Z.to_nat
                 (if (0 <? texts_per_batch)%Z
                  then (Z.of_nat (length (map text_of (all_records input_files)))
                        - 0 + texts_per_batch - 1) / texts_per_batch
                  else (0 - Z.of_nat (length (map text_of (all_records input_files)))
                        - texts_per_batch - 1) / - texts_per_batch)%Z
               = 0%nat).
  { destruct (0 <? texts_per_batch)%Z eqn:Hp.
    - apply Z.ltb_lt in Hp. destruct Hnone as [->|?]; [|lia]. simpl.
      rewrite Z.div_small by lia. done.
    - apply Z.ltb_ge in Hp.
      assert (((0 - Z.of_nat (length (map text_of (all_records input_files)))
                - texts_per_batch - 1) / - texts_per_batch < 1)%Z); [|lia].
      apply Z.div_lt_upper_bound; lia. }
  rewrite Hn. done.
Qed.

Lemma build_vector_store_batches_witness :
  ∃ first_texts first_meta more,
    build_vector_store chunk_files "faiss_index" 2
    = (FromTexts first_texts first_meta :: more ++ [SaveLocal "faiss_index"], None)
    ∧ concat (map call_texts (FromTexts first_texts first_meta :: more))
      = ["one"; "two"; "three"; "four"; "five"].
Proof.
  destruct (build_vector_store_batches chunk_files "faiss_index" 2)
    as (ft & fm & more & H1 & _ & H3 & _); [reflexivity|discriminate|lia|].
  exists ft, fm, more. split; [exact H1|exact H3].
Defined.

Lemma build_vector_store_invalid_schema_witness :
  fst (build_vector_store broken_files "faiss_index" 200) = [].
Proof.
  destruct (build_vector_store_invalid_schema broken_files "faiss_index"
              "bad.json" 200) as [H _]; [reflexivity|].
  by rewrite H.
Defined.

Lemma build_vector_store_nothing_to_embed_witness :
  build_vector_store chunk_files "faiss_index" (-5)
  = ([], Some (AssertionError "No data embedded!")).
Proof.
  apply (build_vector_store_nothing_to_embed chunk_files "faiss_index" (-5));
    [reflexivity|right; lia].
Defined.

End VectorStore.

(** ** The further loop properties on sample inputs *)

Section LoopExtrasExamples.

Import GraphBuilder BatchSpec BatchLedger.

Local Abbreviation sample_batch := (batch word_count echo_convert accept_add).
Local Abbreviation sample_run := (run word_count echo_convert accept_add).
Local Abbreviation sample_step :=
  (process_message word_count echo_convert accept_add).

Lemma completed_run_settles_every_item_witness :
  let '(st', _, _) := sample_batch None 0%nat small_batch in
  settled (checkpoint st' !! "2") = true.
Proof.
  pose proof (completed_run_settles_every_item word_count echo_convert
                accept_add None 0%nat small_batch) as H.
  destruct (sample_batch None 0%nat small_batch) as [[st' tr] out] eqn:E.
  assert (Hout : out = Completed).
  { vm_compute in E. by injection E as _ _ <-. }
  apply (H Hout (Message "2" "boom" [] [])); [simpl; auto|discriminate].
Defined.

Lemma at_most_one_success_witness :
  let '(_, tr, _) := sample_batch None 0%nat small_batch in
  (successes "1" tr ≤ 1)%nat.
Proof.
  pose proof (at_most_one_success word_count echo_convert accept_add
                None 0%nat small_batch "1") as H.
  destruct (sample_batch None 0%nat small_batch) as [[st' tr] out].
  by destruct H as [H _].
Defined.

Lemma run_leaves_other_entries_witness :
  let '(st', _, _) :=
    sample_batch (Some {[ "0" := Pending ]}) 0%nat small_batch in
  checkpoint st' !! "0" = Some Pending.
Proof.
  pose proof (run_leaves_other_entries word_count echo_convert accept_add
                (Some {[ "0" := Pending ]}) 0%nat small_batch "0") as H.
  destruct (sample_batch (Some {[ "0" := Pending ]}) 0%nat small_batch)
    as [[st' tr] out].
  destruct H as [H _]. rewrite H; [reflexivity|].
  left. simpl. intros [?|[?|[?|[?|[]]]]]; discriminate.
Defined.

Lemma insertion_follows_complete_extraction_witness :
  let '(st', tr, _) :=
    sample_step (initial_state None 0%nat) (Message "1" "hello" [] []) in
  calls tr
  = [ EConvert "1" (id_document "1" "hello"); EAddGraph "1" ["hello"] ].
Proof.
  pose proof (insertion_follows_complete_extraction word_count echo_convert
                accept_add (initial_state None 0%nat)
                (Message "1" "hello" [] [])) as H.
  destruct (sample_step (initial_state None 0%nat) (Message "1" "hello" [] []))
    as [[st' tr] raised] eqn:E.
  destruct H as [H _].
  destruct (H "1" ["hello"]) as (_ & content & Hc & Hcalls).
  { vm_compute in E. injection E as _ <- _. simpl. auto 10. }
  rewrite Hcalls. vm_compute in E. injection E as <- _ _.
  injection Hc as <-. vm_compute. reflexivity.
Defined.

Lemma packing_keeps_text_witness :
  ∃ groups : list (list string),
    split_documents word_count "7" two_paragraphs = map (render "7") groups
    ∧ String.concat "" (map glue groups) = two_paragraphs +:+ blank_line.
Proof.
  apply packing_keeps_text. apply Nat.ltb_lt. vm_compute. reflexivity.
Defined.

End LoopExtrasExamples.

(** ** The normalizer never lengthens a text *)

Section NormalizerLength.

Import DataProcessor.

Lemma slength_chars s : String.length s = length (chars s).
Proof. induction s as [|c s IH]; [done|]. simpl. by rewrite IH. Qed.

Lemma srev_length s : String.length (String.rev s) = String.length s.
Proof. by rewrite !slength_chars, chars_rev, length_rev. Qed.

Lemma strip_go_length wide k s :
  (String.length (strip_go wide k s) ≤ String.length s)%nat.
Proof.
  destruct (strip_go_suffix wide k s) as [d Hd].
  rewrite Hd at 2. rewrite slength_app. lia.
Qed.

Lemma strip_length s : (String.length (strip s) ≤ String.length s)%nat.
Proof.
  unfold strip, rstrip, lstrip. rewrite srev_length.
  etransitivity; [apply strip_go_length|]. rewrite srev_length.
  apply strip_go_length.
Qed.

Lemma remove_chars_length cls s :
  (String.length (remove_chars cls s) ≤ String.length s)%nat.
Proof.
  induction s as [|c s IH]; [done|]. simpl.
  destruct (cls c); simpl; lia.
Qed.

Lemma prefix_length old s :
  String.prefix old s = true → (String.length old ≤ String.length s)%nat.
Proof.
  intros [r ->]%prefix_split. rewrite slength_app. lia.
Qed.

Lemma replace_go_length old new k s :
  (String.length new ≤ String.length old)%nat →
  (String.length (replace_go old new k s) + Nat.min k (String.length s)
   ≤ String.length s)%nat.
Proof.
  intros Hnew. revert k. induction s as [|c s IH]; intros k.
  - simpl. lia.
  - destruct k as [|k].
    + rewrite replace_go_0.
      destruct (String.prefix old (String c s)) eqn:E.
      * apply prefix_length in E. simpl in E.
        specialize (IH (String.length old - 1)%nat).
        rewrite slength_app. simpl. lia.
      * specialize (IH 0%nat). simpl in *. lia.
    + rewrite replace_go_S. specialize (IH k). simpl. lia.
Qed.

Lemma replace_length old new s :
  (String.length new ≤ String.length old)%nat →
  (String.length (replace old new s) ≤ String.length s)%nat.
Proof.
  intros H. pose proof (replace_go_length old new 0 s H). unfold replace. lia.
Qed.

(** Cleaning can only shorten: the normalized text is never longer than the
    raw text. *)
Theorem clean_never_longer (text : string) :
  (String.length (_clean_slack_markup text) ≤ String.length text)%nat.
Proof.
  unfold _clean_slack_markup.
  etransitivity; [apply strip_length|].
  etransitivity; [apply replace_length; simpl; lia|].
  etransitivity; [apply replace_length; simpl; lia|].
  etransitivity; [apply replace_length; simpl; lia|].
  apply remove_chars_length.
Qed.

End NormalizerLength.

(** ** The batch loop with a tokenizer that can raise *)

Section CheckedLoopFacts.

Import GraphBuilder BatchSpec BatchLedger.

Context {GraphDocument Backend : Type}.
Variable encode_len : string → string + nat.
Variable convert_to_graph_documents :
  Backend → Document → Backend * (string + list GraphDocument).
Variable add_graph_documents :
  Backend → list GraphDocument → Backend * option string.

Local Abbreviation split_documents_checked := (split_documents_checked encode_len).
Local Abbreviation process_message_checked :=
  (process_message_checked encode_len convert_to_graph_documents
                           add_graph_documents).
Local Abbreviation run_checked :=
  (run_checked encode_len convert_to_graph_documents add_graph_documents).

(** The tokenizer raised [err] on some text. *)
Local Abbreviation tokenizer_raised e :=
  (∃ err s, e = ValueError err ∧ encode_len s = inl err).

Lemma pack_checked_raises msg_id paras (acc : exn + pack_state) e :
  fold_left (pack_step_checked encode_len msg_id) paras acc = inl e →
  acc = inl e ∨ tokenizer_raised e.
Proof.
  revert acc. induction paras as [|p paras IH]; intros acc H; [by left|].
  cbn [fold_left] in H. apply IH in H as [H|H]; [|by right].
  destruct acc as [e'|st]; [left; exact H|]. right. cbn in H.
  destruct (encode_len p) as [err|n] eqn:E; [|discriminate H].
  injection H as <-. by exists err, p.
Qed.

Lemma split_documents_checked_raises msg_id content e :
  split_documents_checked msg_id content = inl e → tokenizer_raised e.
Proof.
  unfold GraphBuilder.split_documents_checked.
  destruct (encode_len content) as [err|tokens] eqn:E.
  - intros [= <-]. by exists err, content.
  - destruct (token_limit <? tokens)%nat; [|discriminate].
    destruct (fold_left _ _ _) as [e'|[[chunk toks] docs]] eqn:F; [|discriminate].
    intros [= <-]. by apply pack_checked_raises in F as [[=]|?].
Qed.

(** With a tokenizer that returns on every text, this is the loop of
    [process_message] and [run]. *)
Lemma pack_checked_total (ntokens : string → nat) msg_id paras st :
  (∀ s, encode_len s = inr (ntokens s)) →
  fold_left (pack_step_checked encode_len msg_id) paras (inr st)
  = inr (fold_left (pack_step ntokens msg_id) paras st).
Proof.
  intros Htotal. revert st. induction paras as [|p paras IH]; intros st; [done|].
  cbn [fold_left]. unfold pack_step_checked at 2. rewrite Htotal.
  rewrite IH. by destruct st as [[chunk toks] docs].
Qed.

Lemma split_documents_checked_total (ntokens : string → nat) msg_id content :
  (∀ s, encode_len s = inr (ntokens s)) →
  split_documents_checked msg_id content
  = inr (split_documents ntokens msg_id content).
Proof.
  intros Htotal.
  unfold GraphBuilder.split_documents_checked, split_documents.
  rewrite Htotal. destruct (token_limit <? ntokens content)%nat; [|done].
  rewrite (pack_checked_total ntokens) by done.
  by destruct (fold_left _ _ _) as [[chunk toks] docs].
Qed.

Lemma process_message_checked_total (ntokens : string → nat) st msg :
  (∀ s, encode_len s = inr (ntokens s)) →
  process_message_checked st msg
  = process_message ntokens convert_to_graph_documents add_graph_documents st msg.
Proof.
  intros Htotal. unfold GraphBuilder.process_message_checked, process_message.
  destruct (negb (nonempty (timestamp msg))); [done|].
  destruct (is_done (checkpoint st !! timestamp msg)); [done|].
  cbn. destruct (append_replies _ _) as [e|[content|]]; try done.
  by rewrite (split_documents_checked_total ntokens).
Qed.

Theorem run_checked_total (ntokens : string → nat) st messages :
  (∀ s, encode_len s = inr (ntokens s)) →
  run_checked st messages
  = run ntokens convert_to_graph_documents add_graph_documents st messages.
Proof.
  intros Htotal. revert st. induction messages as [|msg messages IH]; intros st.
  - done.
  - cbn [GraphBuilder.run_checked run].
    rewrite (process_message_checked_total ntokens) by done.
    destruct (process_message _ _ _ _ _) as [[st1 tr1] [e|]]; [done|].
    by rewrite IH.
Qed.

(** *** When the loop is cut short *)

Lemma process_message_checked_raises st msg :
  let '(st', tr, raised) := process_message_checked st msg in
  (∀ e, raised = Some e →
        timestamp msg ≠ ""
        ∧ checkpoint st' !! timestamp msg = Some Pending
        ∧ ((e = NameError "slack_content" ∧ text msg = ""
            ∧ slack_content st = None)
           ∨ tokenizer_raised e))
  ∧ (raised = None → is_Some (slack_content st) → is_Some (slack_content st')).
Proof.
  unfold GraphBuilder.process_message_checked.
  destruct (nonempty (timestamp msg)) eqn:Hid; cbn [negb]; [|by split].
  apply nonempty_true in Hid.
  destruct (is_done (checkpoint st !! timestamp msg)); [by split|].
  cbn. unfold assign_body.
  assert (Hpending : (<[timestamp msg:=Pending]> (checkpoint st))
                       !! timestamp msg = Some Pending)
    by by rewrite lookup_insert_eq.
  assert (Hwork : ∀ content,
    let '(st', tr, raised) :=
      match split_documents_checked (timestamp msg) content with
      | inl e =>
          ({| checkpoint := <[timestamp msg:=Pending]> (checkpoint st);
              ckpt_file := Some (<[timestamp msg:=Pending]> (checkpoint st));
              slack_content := Some content;
              backend := backend st |},
           [ESet (timestamp msg) Pending;
            EDump (<[timestamp msg:=Pending]> (checkpoint st))], Some e)
      | inr documents =>
          let '(be, evs2, r) :=
            unit_of_work convert_to_graph_documents add_graph_documents
                         (backend st) (timestamp msg) documents in
          let '(st5, evs3) :=
            match r with
            | Some err_msg =>
                set_and_dump
                  (with_backend
                     {| checkpoint := <[timestamp msg:=Pending]> (checkpoint st);
                        ckpt_file := Some (<[timestamp msg:=Pending]> (checkpoint st));
                        slack_content := Some content;
                        backend := backend st |} be)
                  (timestamp msg) (Error err_msg)
            | None =>
                set_and_dump
                  (with_backend
                     {| checkpoint := <[timestamp msg:=Pending]> (checkpoint st);
                        ckpt_file := Some (<[timestamp msg:=Pending]> (checkpoint st));
                        slack_content := Some content;
                        backend := backend st |} be)
                  (timestamp msg) (Done done_result)
            end in
          (st5,
           [ESet (timestamp msg) Pending;
            EDump (<[timestamp msg:=Pending]> (checkpoint st))]
             ++ evs2 ++ evs3, None)
      end in
    (∀ e, raised = Some e →
          timestamp msg ≠ ""
          ∧ checkpoint st' !! timestamp msg = Some Pending
          ∧ ((e = NameError "slack_content" ∧ text msg = ""
              ∧ slack_content st = None)
             ∨ tokenizer_raised e))
    ∧ (raised = None → is_Some (slack_content st) → is_Some (slack_content st'))).
  { intros content.
    destruct (split_documents_checked (timestamp msg) content) as [e|docs] eqn:E.
    - split; [|done]. intros e' [= <-]. repeat split; try done.
      right. by apply split_documents_checked_raises in E.
    - destruct (unit_of_work _ _ _ _ _) as [[be evs] [err|]];
        cbn; split; try done; by eauto. }
  destruct (nonempty (text msg)) eqn:Hbody.
  - destruct (append_replies_bound (extract_merge_text (text msg) msg)
                (thread_replies msg)) as (suffix & -> & _).
    apply Hwork.
  - assert (Hb : text msg = "") by (by destruct (text msg)).
    destruct (slack_content st) as [c|] eqn:Hc.
    + destruct (append_replies_bound c (thread_replies msg)) as (suffix & -> & _).
      apply Hwork.
    + destruct (append_replies None (thread_replies msg)) as [e|[content|]] eqn:Ha.
      * cbn. split; [|done]. intros e' [= <-]. repeat split; try done.
        left. repeat split; try done.
        clear -Ha. induction (thread_replies msg) as [|r rs IH]; [done|].
        cbn [append_replies] in Ha.
        destruct (nonempty (text r)); [by injection Ha as <-|by apply IH].
      * apply Hwork.
      * cbn. split; [|done]. intros e' [= <-]. repeat split; try done.
        by left.
Qed.

Lemma run_checked_aborts st messages :
  let '(st', tr, out) := run_checked st messages in
  ∀ e, out = Aborted e →
       (e = NameError "slack_content" → slack_content st = None)
       ∧ ∃ m, In m messages ∧ timestamp m ≠ ""
              ∧ checkpoint st' !! timestamp m = Some Pending
              ∧ ((e = NameError "slack_content" ∧ text m = "")
                 ∨ tokenizer_raised e).
Proof.
  revert st. induction messages as [|msg messages IH]; intros st; simpl.
  - by intros e.
  - pose proof (process_message_checked_raises st msg) as Hpm.
    destruct (process_message_checked st msg) as [[st1 tr1] [e1|]].
    + destruct Hpm as [Hpm _]. intros e [= <-].
      destruct (Hpm e1 eq_refl) as (Hid & Hp & Hcase). split.
      * intros ->. destruct Hcase as [(_ & _ & ?)|(err & s & [=] & _)]. done.
      * exists msg. repeat split; try done; [by left|].
        destruct Hcase as [(-> & Hb & _)|?]; [by left|by right].
    + destruct Hpm as [_ Hpm]. specialize (IH st1).
      destruct (run_checked st1 messages) as [[st2 tr2] out].
      intros e He. destruct (IH e He) as (Hc & m & Hin & Hm). split.
      * intros Hn. specialize (Hc Hn).
        destruct (slack_content st) eqn:E; [|done].
        destruct Hpm as [c Hc']; [done|by eexists|]. congruence.
      * exists m. split; [by right|done].
Qed.

(** The loop ends before the end of the list only through an exception
    raised outside the [try]: the read of [slack_content] while it is
    unbound, for an item without body, or a [ValueError] of the tokenizer.
    The item at hand is then left pending.  With a tokenizer that returns on
    every text, a run that starts with [slack_content] bound, and a run over
    messages that all have a body, go through the whole list whatever the
    extraction and insertion backends do. *)
Theorem run_cut_short_only_outside_try (st : loop_state)
    (messages : list message) :
  let '(st', tr, out) := run_checked st messages in
  (∀ e, out = Aborted e →
        ∃ m, In m messages ∧ timestamp m ≠ ""
             ∧ checkpoint st' !! timestamp m = Some Pending
             ∧ ((e = NameError "slack_content" ∧ text m = ""
                 ∧ slack_content st = None)
                ∨ tokenizer_raised e))
  ∧ ((∀ s, ∃ n, encode_len s = inr n) →
     is_Some (slack_content st) ∨ Forall (fun m => text m ≠ "") messages →
     out = Completed).
Proof.
  pose proof (run_checked_aborts st messages) as H.
  destruct (run_checked st messages) as [[st' tr] out]. split.
  - intros e He. destruct (H e He) as (Hc & m & Hin & Hid & Hp & Hcase).
    exists m. repeat split; try done.
    destruct Hcase as [[-> Hb]|?]; [left|by right]. repeat split; try done.
    by apply Hc.
  - intros Htotal Hstart. destruct out as [|e]; [done|]. exfalso.
    destruct (H e eq_refl) as (Hc & m & Hin & _ & _ & Hcase).
    destruct Hcase as [[-> Hb]|(err & s & _ & Hs)].
    + destruct Hstart as [[c Hc']|Hall].
      * rewrite Hc in Hc'; done.
      * rewrite Forall_forall in Hall. by apply list_elem_of_In, Hall in Hin.
    + destruct (Htotal s) as [n Hn]. congruence.
Qed.

(** *** Content carried from one item to the next *)

(** [slack_content] is not reset between items: a message without body is
    processed with the content left by the previous item, followed by what
    its own replies add (nothing when no reply has a body).  The iteration
    does not raise the [NameError]; it raises only if the tokenizer does, and
    what it submits for the item are sub-units of that text. *)
Theorem bodyless_message_reuses_content (st : loop_state) (msg : message)
    (previous : string) :
  text msg = "" → slack_content st = Some previous →
  timestamp msg ≠ "" → is_done (checkpoint st !! timestamp msg) = false →
  let '(st', tr, raised) := process_message_checked st msg in
  ∃ suffix,
    slack_content st' = Some (previous +:+ suffix)
    ∧ (Forall (fun r => text r = "") (thread_replies msg) → suffix = "")
    ∧ (raised = None ∨ ∃ e, raised = Some e ∧ tokenizer_raised e)
    ∧ ∀ i d, In (EConvert i d) tr →
             ∃ documents,
               split_documents_checked (timestamp msg) (previous +:+ suffix)
               = inr documents
               ∧ In d documents.
Proof.
  intros Hbody Hprev Hid Hnd. unfold GraphBuilder.process_message_checked.
  apply nonempty_true in Hid. rewrite Hid, Hnd. cbn.
  unfold assign_body. rewrite Hbody, Hprev. cbn.
  destruct (append_replies_bound previous (thread_replies msg))
    as (suffix & -> & Hsuffix).
  destruct (split_documents_checked (timestamp msg) (previous +:+ suffix))
    as [e|documents] eqn:Hsplit.
  - exists suffix. repeat split; try done.
    + right. exists e. split; [done|].
      by apply split_documents_checked_raises in Hsplit.
    + intros i d [[=]|[[=]|[]]].
  - destruct (unit_of_work _ _ _ _ _) as [[be evs] r] eqn:E.
    destruct (unit_of_work_calls _ _ _ _ _ _ _ _ E) as [_ Hshape].
    assert (Hsub : ∀ i d, In (EConvert i d) evs → In d documents).
    { intros i d Hi. destruct Hshape as [(n & err & -> & _)|[gds ->]].
      - apply in_map_iff in Hi as (d' & [= _ ->] & Hd). by apply in_take in Hd.
      - apply in_app_or in Hi as [Hi|[[=]|[]]].
        by apply in_map_iff in Hi as (d' & [= _ ->] & Hd). }
    assert (Hin : ∀ i d e c2,
              In (EConvert i d)
                 (ESet (timestamp msg) Pending
                    :: EDump (<[timestamp msg:=Pending]> (checkpoint st))
                    :: evs ++ [ESet (timestamp msg) e; EDump c2]) →
              In (EConvert i d) evs).
    { intros i d e c2 [[=]|[[=]|Hin]].
      apply in_app_or in Hin as [?|[[=]|[[=]|[]]]]. done. }
    destruct r as [err|]; cbn; exists suffix;
      (split; [done|split; [done|split; [by left|]]]);
      intros i d Hi%Hin; exists documents; (split; [done|]);
      by eapply Hsub.
Qed.

(** *** Items recorded as done *)

Lemma pack_checked_inl msg_id paras e :
  fold_left (pack_step_checked encode_len msg_id) paras (inl e) = inl e.
Proof. induction paras as [|p paras IH]; [done|exact IH]. Qed.

Lemma process_message_checked_skip st msg :
  timestamp msg = "" ∨ is_done (checkpoint st !! timestamp msg) = true →
  process_message_checked st msg = (st, [], None).
Proof.
  unfold GraphBuilder.process_message_checked. intros [->| ->]; [done|].
  by destruct (negb (nonempty (timestamp msg))).
Qed.

Lemma run_checked_all_done st messages :
  (∀ m, In m messages → timestamp m ≠ "" →
        is_done (checkpoint st !! timestamp m) = true) →
  run_checked st messages = (st, [], Completed).
Proof.
  induction messages as [|msg messages IH]; intros H; simpl; [done|].
  rewrite process_message_checked_skip.
  - rewrite IH; [done|]. intros m Hm. apply H. by right.
  - destruct (decide (timestamp msg = "")) as [?|Hne]; [by left|right].
    apply H; [by left|done].
Qed.

(** Each iteration of the loop with the raising tokenizer is an iteration as
    [BatchSpec] describes it, for any count that agrees with the tokenizer
    where the tokenizer returns. *)
Section Agreement.

Variable ntokens : string → nat.
Hypothesis ntokens_returned : ∀ s n, encode_len s = inr n → ntokens s = n.

Lemma pack_checked_agrees msg_id paras st st' :
  fold_left (pack_step_checked encode_len msg_id) paras (inr st) = inr st' →
  st' = fold_left (pack_step ntokens msg_id) paras st.
Proof.
  revert st. induction paras as [|p paras IH]; intros st; cbn [fold_left].
  - by intros [= ->].
  - unfold pack_step_checked at 2. destruct (encode_len p) as [err|n] eqn:E.
    + rewrite pack_checked_inl. discriminate.
    + intros H. apply IH in H. rewrite H. f_equal.
      unfold pack_step. rewrite (ntokens_returned _ _ E).
      by destruct st as [[chunk toks] docs].
Qed.

Lemma split_documents_checked_agrees msg_id content documents :
  split_documents_checked msg_id content = inr documents →
  documents = split_documents ntokens msg_id content.
Proof.
  unfold GraphBuilder.split_documents_checked, split_documents.
  destruct (encode_len content) as [err|tokens] eqn:E; [discriminate|].
  rewrite (ntokens_returned _ _ E).
  destruct (token_limit <? tokens)%nat; [|by intros [= <-]].
  destruct (fold_left (pack_step_checked encode_len msg_id) _ _)
    as [e|st'] eqn:F; [discriminate|].
  apply pack_checked_agrees in F. rewrite <- F.
  destruct st' as [[chunk toks] docs]. by intros [= <-].
Qed.

Lemma process_message_checked_iteration st msg :
  let '(st', tr, raised) := process_message_checked st msg in
  iteration ntokens st msg st' tr raised.
Proof.
  unfold GraphBuilder.process_message_checked.
  destruct (nonempty (timestamp msg)) eqn:Hid; cbn [negb].
  2:{ apply it_skip. left. by destruct (timestamp msg). }
  apply nonempty_true in Hid.
  destruct (is_done (checkpoint st !! timestamp msg)) eqn:Hdone.
  { apply it_skip. by right. }
  cbn.
  destruct (append_replies _ _) as [e|[content|]].
  - by apply it_abort.
  - destruct (split_documents_checked (timestamp msg) content)
      as [e|documents] eqn:Hsplit.
    { by apply it_abort. }
    apply split_documents_checked_agrees in Hsplit.
    destruct (unit_of_work _ _ _ _ _) as [[be evs2] r] eqn:E.
    destruct (unit_of_work_shape _ _ _ _ _ _ _ _ E) as (H1 & H2 & H3).
    destruct documents as [|d ds].
    { symmetry in Hsplit. by apply split_documents_not_nil in Hsplit. }
    destruct r as [err_msg|]; cbn.
    + eapply it_processed with (content := content) (entry := Error err_msg);
        eauto.
    + eapply it_processed with (content := content) (entry := Done done_result);
        eauto.
      left. split; [done|]. rewrite <- Hsplit. by apply H3.
  - by apply it_abort.
Qed.

Lemma run_checked_execution st messages :
  let '(st', tr, out) := run_checked st messages in
  execution ntokens st messages st' tr out.
Proof.
  revert st. induction messages as [|msg messages IH]; intros st; simpl.
  - constructor.
  - pose proof (process_message_checked_iteration st msg) as Hit.
    destruct (process_message_checked st msg) as [[st1 tr1] [e|]].
    + by constructor.
    + specialize (IH st1).
      destruct (run_checked st1 messages) as [[st2 tr2] out].
      by econstructor.
Qed.

End Agreement.

(** In a run of the batch loop that starts from a checkpoint file, whatever
    the tokenizer and the backends do, no backend call is made for an item
    the file records as done, and its entry stays as it is.  When the run
    goes through the whole list, every message with an id whose entry was
    absent, pending or error had at least one extraction call made for it.
    When the run went through the whole list and left every message with an
    id done, running the same list again from the file it left makes no
    backend call and changes nothing. *)
Theorem done_items_not_reprocessed
    (file : option (gmap string CheckpointEntry)) (be : Backend)
    (messages : list message) :
  let '(st', tr, out) := run_checked (initial_state file be) messages in
  (∀ i r, load file !! i = Some (Done r) →
     Forall (fun ev => call_of ev ≠ Some i) tr
     ∧ checkpoint st' !! i = Some (Done r))
  ∧ (out = Completed →
     ∀ m, In m messages → timestamp m ≠ "" →
          (load file !! timestamp m = None
           ∨ load file !! timestamp m = Some Pending
           ∨ ∃ err, load file !! timestamp m = Some (Error err)) →
          ∃ d, In (EConvert (timestamp m) d) tr)
  ∧ (out = Completed →
     (∀ m, In m messages → timestamp m ≠ "" →
           ∃ r, checkpoint st' !! timestamp m = Some (Done r)) →
     ∀ be2, run_checked (initial_state (ckpt_file st') be2) messages
            = (initial_state (ckpt_file st') be2, [], Completed)).
Proof.
  set (ntokens s := match encode_len s with inr n => n | inl _ => 0%nat end).
  assert (Hagree : ∀ s n, encode_len s = inr n → ntokens s = n).
  { intros s n E. unfold ntokens. by rewrite E. }
  pose proof (run_checked_execution ntokens Hagree
                (initial_state file be) messages) as Hex.
  destruct (run_checked (initial_state file be) messages) as [[st' tr] out].
  repeat split.
  - by eapply execution_keeps_done; [exact Hex|].
  - by eapply execution_keeps_done; [exact Hex|].
  - intros -> m Hin Hid Hnd. eapply execution_attempts; try done. cbn.
    destruct Hnd as [->|[->|[err ->]]]; done.
  - intros -> Hall be2. apply run_checked_all_done. intros m Hin Hid. cbn.
    erewrite (execution_file_current); [|exact Hex|done].
    destruct (Hall m Hin Hid) as [r ->]. done.
Qed.

(** *** A run that was cut short, resumed *)

(** C1, where the code departs from it: after the run over a first record
    without body was cut short, the file records that item as pending and
    has no entry for the next one.  The run resumed from that file is cut
    short at the same place: no backend call is made for the pending item or
    for the absent one, and the file stays as it was.  This holds whatever
    the tokenizer and the backends do. *)
Theorem pending_and_absent_items_not_reattempted (be be2 : Backend) :
  let '(st1, tr1, out1) := run_checked (initial_state None be) bodyless_first in
  let '(st2, tr2, out2) :=
    run_checked (initial_state (ckpt_file st1) be2) bodyless_first in
  out1 = Aborted (NameError "slack_content")
  ∧ ckpt_file st1 = Some {[ "1" := Pending ]}
  ∧ out2 = Aborted (NameError "slack_content")
  ∧ calls tr1 = [] ∧ calls tr2 = []
  ∧ checkpoint st2 !! "1" = Some Pending
  ∧ checkpoint st2 !! "2" = None
  ∧ ckpt_file st2 = ckpt_file st1.
Proof. cbn. repeat split. Qed.

End CheckedLoopFacts.

Section CheckedLoopExamples.

Import GraphBuilder.

Example quoted_token_cuts_run :
  let '(st', tr, out) :=
    run_checked guarded_word_count echo_convert accept_add
                (initial_state None 0%nat) quoting_batch in
  out = Aborted (ValueError "disallowed special token")
  ∧ checkpoint st' !! "1" = Some (Done done_result)
  ∧ checkpoint st' !! "2" = Some Pending
  ∧ checkpoint st' !! "3" = None.
Proof. vm_compute. repeat split. Qed.

Lemma run_cut_short_only_outside_try_witness :
  (let '(_, _, out) :=
     run_checked total_word_count echo_convert accept_add
                 (initial_state None 0%nat) quoting_batch in
   out = Completed)
  ∧ (let '(st', _, _) :=
       run_checked guarded_word_count echo_convert accept_add
                   (initial_state None 0%nat) quoting_batch in
     ∃ m, In m quoting_batch ∧ checkpoint st' !! timestamp m = Some Pending).
Proof.
  split.
  - pose proof (run_cut_short_only_outside_try total_word_count echo_convert
                  accept_add (initial_state None 0%nat) quoting_batch) as H.
    destruct (run_checked total_word_count echo_convert accept_add
                (initial_state None 0%nat) quoting_batch) as [[st' tr] out].
    destruct H as [_ H]. apply H.
    + intros s. by eexists.
    + right. repeat constructor; discriminate.
  - pose proof (run_cut_short_only_outside_try guarded_word_count echo_convert
                  accept_add (initial_state None 0%nat) quoting_batch) as H.
    destruct (run_checked guarded_word_count echo_convert accept_add
                (initial_state None 0%nat) quoting_batch)
      as [[st' tr] out] eqn:E.
    assert (Hout : out = Aborted (ValueError "disallowed special token")).
    { vm_compute in E. by injection E as _ _ <-. }
    destruct H as [H _]. destruct (H _ Hout) as (m & Hin & _ & Hp & _).
    by exists m.
Defined.

Lemma done_items_not_reprocessed_witness :
  (let '(st', _, _) :=
     run_checked guarded_word_count echo_convert accept_add
                 (initial_state None 0%nat) clean_batch in
   run_checked guarded_word_count echo_convert accept_add
               (initial_state (ckpt_file st') 0%nat) clean_batch
   = (initial_state (ckpt_file st') 0%nat, [], Completed))
  ∧ (let '(_, tr, _) :=
       run_checked guarded_word_count echo_convert accept_add
                   (initial_state (Some {[ "2" := Error "timeout" ]}) 0%nat)
                   clean_batch in
     ∃ d, In (EConvert "2" d) tr).
Proof.
  split.
  - pose proof (done_items_not_reprocessed guarded_word_count echo_convert
                  accept_add None 0%nat clean_batch) as H.
    destruct (run_checked guarded_word_count echo_convert accept_add
                (initial_state None 0%nat) clean_batch)
      as [[st' tr] out] eqn:E.
    vm_compute in E. injection E as <- <- <-.
    destruct H as (_ & _ & H). apply H; [reflexivity|].
    intros m [<-|[<-|[]]] _; eexists; vm_compute; reflexivity.
  - pose proof (done_items_not_reprocessed guarded_word_count echo_convert
                  accept_add (Some {[ "2" := Error "timeout" ]}) 0%nat
                  clean_batch) as H.
    destruct (run_checked guarded_word_count echo_convert accept_add
                (initial_state (Some {[ "2" := Error "timeout" ]}) 0%nat)
                clean_batch) as [[st' tr] out] eqn:E.
    assert (Hout : out = Completed).
    { vm_compute in E. by injection E as _ _ <-. }
    destruct H as (_ & H & _).
    apply (H Hout (Message "2" "bye" [File "sheet"] []));
      [simpl; auto|discriminate|].
    right. right. exists "timeout". reflexivity.
Defined.

Lemma bodyless_message_reuses_content_witness :
  let '(st', _, _) :=
    process_message_checked guarded_word_count echo_convert accept_add
                            state_after_item bodyless_message in
  slack_content st' = Some "earlier item".
Proof.
  pose proof (bodyless_message_reuses_content guarded_word_count echo_convert
                accept_add state_after_item bodyless_message "earlier item"
                eq_refl eq_refl) as H.
  destruct (process_message_checked guarded_word_count echo_convert accept_add
              state_after_item bodyless_message) as [[st' tr] raised].
  destruct H as (suffix & Hc & Hs & _); [discriminate|reflexivity|].
  rewrite Hc, Hs; [reflexivity|constructor].
Defined.

End CheckedLoopExamples.
